(** * user_management.py: the [UserManager] account store

    A shallow embedding of [src/user_management.py] and the properties of
    its operations.

    - Python [str] values are lists of Unicode code points ([str]). A
      string with a lone surrogate has no UTF-8 encoding: [str.encode] and
      the sqlite3 parameter binding raise UnicodeEncodeError on it, and the
      table holds encodable text only ([text]).
    - [hashlib.sha256(...).hexdigest()] is SHA-256 as FIPS 180-4 defines
      it, on 32-bit words kept in [N] with the wrap-around written out.
    - The sqlite3 connection is the state of a state-and-exception monad
      [M]; the statements the program sends are values of a small SQL
      syntax, run by [execute] with their bound parameters.
    - SQL fixes no order for a SELECT without ORDER BY: the order in which
      the engine visits the rows is the field [scan] of an [engine].
    - In the first model the connection is open throughout and every
      statement takes effect at once; the module [Tx] runs the same
      operations on a connection with sqlite3's transactions, [commit]
      and [close]. *)

From Stdlib Require Import String Ascii.
From Stdlib Require Import NArith ZArith List Bool Lia Permutation.
Import ListNotations.

Open Scope N_scope.

(** ** Text *)

(** A Python [str]: its code points. *)
Definition str := list N.

(** A [bytes] value: octets, each below 256. *)
Definition bytes := list N.

(** An ASCII literal of the source, as a [str]. *)
Definition lit (s : string) : str := map N_of_ascii (list_ascii_of_string s).

Definition str_eqb (a b : str) : bool :=
  if list_eq_dec N.eq_dec a b then true else false.

(** The code points UTF-8 encodes: all but the surrogates U+D800..U+DFFF,
    up to U+10FFFF, the last code point a Python [str] can hold. *)
Definition is_scalar (c : N) : bool :=
  (c <? 0xD800) || ((0xDFFF <? c) && (c <? 0x110000)).

Definition encodable (s : str) : bool := forallb is_scalar s.

(** The UTF-8 octets of an encodable code point, one to four. *)
Definition utf8_char (c : N) : bytes :=
  if c <? 0x80 then [c]
  else if c <? 0x800 then
    [N.lor 0xC0 (N.shiftr c 6); N.lor 0x80 (N.land c 0x3F)]
  else if c <? 0x10000 then
    [N.lor 0xE0 (N.shiftr c 12);
     N.lor 0x80 (N.land (N.shiftr c 6) 0x3F);
     N.lor 0x80 (N.land c 0x3F)]
  else
    [N.lor 0xF0 (N.land (N.shiftr c 18) 0x07);
     N.lor 0x80 (N.land (N.shiftr c 12) 0x3F);
     N.lor 0x80 (N.land (N.shiftr c 6) 0x3F);
     N.lor 0x80 (N.land c 0x3F)].

(** The UTF-8 octets of an encodable string. *)
Definition utf8 (s : str) : bytes := flat_map utf8_char s.

(** A string as C reads it: up to the first U+0000. *)
Fixpoint c_string (s : str) : str :=
  match s with
  | [] => []
  | c :: s' => if c =? 0 then [] else c :: c_string s'
  end.

(** ** SHA-256 (hashlib.sha256) *)

Module SHA256.

Definition word := N.

Definition wrap (x : N) : word := x mod 2 ^ 32.
Definition add (x y : word) : word := wrap (x + y).

Definition rotr (n : N) (x : word) : word :=
  N.lor (N.shiftr x n) (wrap (N.shiftl x (32 - n))).
Definition shr (n : N) (x : word) : word := N.shiftr x n.

Definition Ch (x y z : word) : word := N.lxor (N.land x y) (N.ldiff z x).
Definition Maj (x y z : word) : word :=
  N.lxor (N.lxor (N.land x y) (N.land x z)) (N.land y z).
Definition Sigma0 (x : word) : word :=
  N.lxor (N.lxor (rotr 2 x) (rotr 13 x)) (rotr 22 x).
Definition Sigma1 (x : word) : word :=
  N.lxor (N.lxor (rotr 6 x) (rotr 11 x)) (rotr 25 x).
Definition sigma0 (x : word) : word :=
  N.lxor (N.lxor (rotr 7 x) (rotr 18 x)) (shr 3 x).
Definition sigma1 (x : word) : word :=
  N.lxor (N.lxor (rotr 17 x) (rotr 19 x)) (shr 10 x).

(** The constants of FIPS 180-4 are the first 32 bits of the fractional
    parts of roots of the first primes: cube roots of the first 64 for the
    round constants, square roots of the first 8 for the initial value. *)
Definition is_prime (n : N) : bool :=
  (1 <? n)
  && forallb (fun d => negb (n mod d =? 0))
             (map N.of_nat (seq 2 (N.to_nat n - 2))).

Definition primes : list N :=
  Eval vm_compute in firstn 64 (filter is_prime (map N.of_nat (seq 2 310))).

(** The largest r below 2^bits with r^k <= x, one bit at a time. *)
Fixpoint root_bits (k x : N) (bits : nat) (r : N) : N :=
  match bits with
  | O => r
  | S bits' =>
    let r' := r + 2 ^ N.of_nat bits' in
    root_bits k x bits' (if r' ^ k <=? x then r' else r)
  end.

Definition root_fraction (k p : N) : word :=
  wrap (root_bits k (p * 2 ^ (32 * k)) 40 0).

Definition K : list word := Eval vm_compute in map (root_fraction 3) primes.

(** The eight working words a..h, and the chaining value. *)
Definition state : Type :=
  (word * word * word * word * word * word * word * word)%type.

Definition H0 : state :=
  Eval vm_compute in
    match map (root_fraction 2) (firstn 8 primes) with
    | [a; b; c; d; e; f; g; h] => (a, b, c, d, e, f, g, h)
    | _ => (0, 0, 0, 0, 0, 0, 0, 0)
    end.

(** Padding: the bit 1, zeros up to 56 modulo 64, the bit length on 64 bits. *)
Definition be_bytes (n : nat) (x : N) : bytes :=
  map (fun i => N.shiftr x (8 * N.of_nat i) mod 256) (rev (seq 0 n)).

Definition pad (msg : bytes) : bytes :=
  let len := N.of_nat (length msg) in
  let zeros := (64 + 55 - len mod 64) mod 64 in
  msg ++ [0x80] ++ repeat 0 (N.to_nat zeros) ++ be_bytes 8 (8 * len).

Definition be_word (b : bytes) : word :=
  fold_left (fun acc x => 256 * acc + x) b 0.

Fixpoint chunks (fuel size : nat) (l : bytes) : list bytes :=
  match fuel, l with
  | O, _ | _, [] => []
  | S fuel', _ => firstn size l :: chunks fuel' size (skipn size l)
  end.

(** The sixteen big-endian words of a 64-octet block. *)
Definition block_words (block : bytes) : list word :=
  map be_word (chunks 16 4 block).

(** The message schedule W_0..W_63. *)
Fixpoint extend (n : nat) (w : list word) : list word :=
  match n with
  | O => w
  | S n' =>
    let t := length w in
    let at_ k := nth (t - k) w 0 in
    extend n' (w ++ [add (add (sigma1 (at_ 2%nat)) (at_ 7%nat))
                         (add (sigma0 (at_ 15%nat)) (at_ 16%nat))])
  end.

Definition schedule (block : bytes) : list word := extend 48 (block_words block).

Definition round (s : state) (kw : word * word) : state :=
  let '(a, b, c, d, e, f, g, h) := s in
  let T1 := add (add (add (add h (Sigma1 e)) (Ch e f g)) (fst kw)) (snd kw) in
  let T2 := add (Sigma0 a) (Maj a b c) in
  (add T1 T2, a, b, c, add d T1, e, f, g).

Definition compress (hv : state) (block : bytes) : state :=
  let '(a, b, c, d, e, f, g, h) :=
    fold_left round (combine K (schedule block)) hv in
  let '(a0, b0, c0, d0, e0, f0, g0, h0) := hv in
  (add a0 a, add b0 b, add c0 c, add d0 d,
   add e0 e, add f0 f, add g0 g, add h0 h).

Definition digest (msg : bytes) : bytes :=
  let padded := pad msg in
  let '(a, b, c, d, e, f, g, h) :=
    fold_left compress (chunks (length padded) 64 padded) H0 in
  flat_map (be_bytes 4) [a; b; c; d; e; f; g; h].

(** [hexdigest]: two lower-case hexadecimal digits an octet. *)
Definition hex_digit (d : N) : N := if d <? 10 then 48 + d else 87 + d.

Definition hex (b : bytes) : str :=
  flat_map (fun x => [hex_digit (x / 16); hex_digit (x mod 16)]) b.

Definition hexdigest (msg : bytes) : str := hex (digest msg).

End SHA256.

(** The value of [hashlib.sha256(password.encode()).hexdigest()] for a
    password that can be encoded; [self_hash_password] below is the method
    with its exception. *)
Definition hash_password (password : str) : str :=
  SHA256.hexdigest (utf8 password).

(** The digests of FIPS 180 for "abc", the empty message and the message
    of two blocks, and one of a text of one to four octets a character:
    they tell SHA-256 on UTF-8 from any other function. *)
Definition sha256_known_answers : Prop :=
  hash_password (lit "abc")
  = lit "ba7816bf8f01cfea414140de5dae2223b00361a396177a9cb410ff61f20015ad"
  /\ hash_password []
     = lit "e3b0c44298fc1c149afbf4c8996fb92427ae41e4649b934ca495991b7852b855"
  /\ hash_password
       (lit "abcdbcdecdefdefgefghfghighijhijkijkljklmklmnlmnomnopnopq")
     = lit "248d6a61d20638b8e5c026930c3e6039a33ce45964ff2167f6ecedd419db06c1"
  /\ hash_password [104; 233; 108; 108; 111; 8364; 119070]
     = lit "3a8b0380368f379bd95ac48890e0816e5e05772509461cf91aedb57aef893921".

(** ** The users table *)

Open Scope Z_scope.

(** A value sqlite3 hands to Python: an [int] or a [str]. *)
Inductive value :=
| Int (z : Z)
| Text (s : str).

(** A TEXT value of the table: a string that UTF-8 encodes. *)
Record text := mkText {
  chars : str;
  chars_encodable : encodable chars = true
}.

(** The TEXT a bound string becomes; binding has refused the others. *)
Definition to_text (s : str) : text :=
  match sumbool_of_bool (encodable s) with
  | left ok => mkText s ok
  | right _ => mkText [] eq_refl
  end.

(** A record of [users]:
    [id INTEGER PRIMARY KEY, username TEXT UNIQUE, password TEXT,
     email TEXT, is_admin BOOLEAN DEFAULT 0]. *)
Record row := mkRecord {
  u_id : Z;
  username_text : text;
  password_text : text;
  email_text : text;
  u_is_admin : Z
}.

Definition u_username (r : row) : str := chars (username_text r).
Definition u_password (r : row) : str := chars (password_text r).
Definition u_email (r : row) : str := chars (email_text r).

Definition mkRow (id : Z) (username password email : str) (is_admin : Z)
  : row :=
  mkRecord id (to_text username) (to_text password) (to_text email) is_admin.

Definition table := list row.

(** What the connection sees at [db_path]: [None] before the table is
    created, else its records in the order they were inserted. *)
Definition database := option table.

Inductive text_column := Username | Password | Email.
Inductive column := Id | TextCol (c : text_column) | IsAdmin.

Definition col_text (r : row) (c : text_column) : str :=
  match c with
  | Username => u_username r
  | Password => u_password r
  | Email => u_email r
  end.

Definition col_value (r : row) (c : column) : value :=
  match c with
  | Id => Int (u_id r)
  | TextCol c => Text (col_text r c)
  | IsAdmin => Int (u_is_admin r)
  end.

(** ** The SQL the program sends *)

(** Text expressions: a column, the i-th [?], a literal, [a || b]. *)
Inductive term :=
| Col (c : text_column)
| Param (i : nat)
| Lit (s : str)
| Concat (a b : term).

(** WHERE clauses: [a = b], [a LIKE pattern], [p AND q]. *)
Inductive cond :=
| Eq (a b : term)
| Like (a pattern : term)
| And (p q : cond).

Inductive result_columns :=
| Star
| Columns (cs : list column).

(** [SELECT sel_columns FROM users WHERE sel_where]. *)
Record select := mkSelect {
  sel_columns : result_columns;
  sel_where : cond
}.

Fixpoint eval_term (params : list str) (r : row) (t : term) : str :=
  match t with
  | Col c => col_text r c
  | Param i => nth i params []
  | Lit s => s
  | Concat a b => eval_term params r a ++ eval_term params r b
  end.

(** LIKE folds the case of the 26 ASCII letters only. *)
Definition fold_case (c : N) : N :=
  if ((65 <=? c) && (c <=? 90))%N then (c + 32)%N else c.

Definition percent : N := 37.
Definition underscore : N := 95.

(** [s LIKE pattern]: [%] stands for any run of characters, [_] for any
    one character, every other character for itself up to ASCII case. *)
Fixpoint like (pattern : str) : str -> bool :=
  match pattern with
  | [] => fun s => match s with [] => true | _ :: _ => false end
  | c :: pattern' =>
    if (c =? percent)%N then
      fix any_run (s : str) : bool :=
        like pattern' s
        || match s with [] => false | _ :: s' => any_run s' end
    else if (c =? underscore)%N then
      fun s => match s with [] => false | _ :: s' => like pattern' s' end
    else
      fun s =>
        match s with
        | [] => false
        | d :: s' => (fold_case c =? fold_case d)%N && like pattern' s'
        end
  end.

(** LIKE as SQLite applies it: to the pattern and the text read as C
    strings, so neither counts past a U+0000. *)
Definition sql_like (pattern s : str) : bool :=
  like (c_string pattern) (c_string s).

Fixpoint eval_cond (params : list str) (r : row) (c : cond) : bool :=
  match c with
  | Eq a b => str_eqb (eval_term params r a) (eval_term params r b)
  | Like a pattern =>
    sql_like (eval_term params r pattern) (eval_term params r a)
  | And p q => eval_cond params r p && eval_cond params r q
  end.

(** SQLITE_MAX_LIKE_PATTERN_LENGTH: a pattern of more octets is refused
    ("LIKE or GLOB pattern too complex"). *)
Definition LIKE_PATTERN_LIMIT : N := 50000.

Definition pattern_too_long (pattern : str) : bool :=
  (LIKE_PATTERN_LIMIT <? N.of_nat (length (utf8 pattern)))%N.

(** Whether the WHERE clause raises on a record: a LIKE it comes to has a
    pattern over the limit. *)
Fixpoint cond_raises (params : list str) (r : row) (c : cond) : bool :=
  match c with
  | Eq _ _ => false
  | Like _ pattern => pattern_too_long (eval_term params r pattern)
  | And p q =>
    cond_raises params r p || (eval_cond params r p && cond_raises params r q)
  end.

Definition all_columns : list column :=
  [Id; TextCol Username; TextCol Password; TextCol Email; IsAdmin].

Definition project (cs : result_columns) (r : row) : list value :=
  match cs with
  | Star => map (col_value r) all_columns
  | Columns cs => map (col_value r) cs
  end.

(** The number of [?] of a statement. *)
Fixpoint term_params (t : term) : nat :=
  match t with
  | Param i => S i
  | Concat a b => Nat.max (term_params a) (term_params b)
  | _ => O
  end.

Fixpoint cond_params (c : cond) : nat :=
  match c with
  | Eq a b | Like a b => Nat.max (term_params a) (term_params b)
  | And p q => Nat.max (cond_params p) (cond_params q)
  end.

(** ** The connection: state and exceptions *)

Inductive constraint :=
| UNIQUE (c : column)
| PRIMARY_KEY
| NOT_NULL (c : column)
| CHECK
| FOREIGN_KEY.

Inductive operational :=
| no_such_table          (* no such table: users *)
| pattern_too_complex.   (* LIKE or GLOB pattern too complex *)

Inductive exn :=
| IntegrityError (c : constraint)        (* sqlite3.IntegrityError *)
| OperationalError (why : operational)   (* sqlite3.OperationalError *)
| ProgrammingError                       (* wrong number of bindings *)
| UnicodeEncodeError                     (* a lone surrogate *)
| IndexError
| ValueError (message : str).

Inductive outcome (A : Type) :=
| Ok (a : A)
| Raise (e : exn).
Arguments Ok {A} a.
Arguments Raise {A} e.

Definition M (A : Type) : Type := database -> outcome A * database.

Definition ret {A} (a : A) : M A := fun db => (Ok a, db).
Definition raise {A} (e : exn) : M A := fun db => (Raise e, db).
Definition bind {A B} (m : M A) (k : A -> M B) : M B :=
  fun db =>
    match m db with
    | (Ok a, db') => k a db'
    | (Raise e, db') => (Raise e, db')
    end.

Notation "x <- m ;; k" := (bind m (fun x => k))
  (at level 61, m at next level, right associativity).
Notation "m ;; k" := (bind m (fun _ => k))
  (at level 61, right associativity).

(** [try: body except <handles>: handler]. *)
Definition try_except {A} (body : M A) (handles : exn -> bool) (handler : M A)
  : M A :=
  fun db =>
    match body db with
    | (Ok a, db') => (Ok a, db')
    | (Raise e, db') => if handles e then handler db' else (Raise e, db')
    end.

Definition is_IntegrityError (e : exn) : bool :=
  match e with IntegrityError _ => true | _ => false end.

(** The order in which the engine visits the records of a SELECT. *)
Record engine := mkEngine {
  scan : table -> list row;
  scan_perm : forall t, Permutation (scan t) t
}.

(** A cursor after [execute]: the tuples still to fetch. *)
Definition cursor := list (list value).

Definition fetchone (c : cursor) : option (list value) := hd_error c.
Definition fetchall (c : cursor) : list (list value) := c.

(** [cursor.execute(<select>, params)]: the statement is prepared (the
    table must exist), the parameters are bound (as many as the statement
    has [?], each a string UTF-8 encodes), then the records are visited.
    The cursor is filled at once: the three call sites fetch right after. *)
Definition execute (E : engine) (q : select) (params : list str) : M cursor :=
  fun db =>
    match db with
    | None => (Raise (OperationalError no_such_table), db)
    | Some t =>
      if negb (Nat.eqb (cond_params (sel_where q)) (length params)) then
        (Raise ProgrammingError, db)
      else if negb (forallb encodable params) then
        (Raise UnicodeEncodeError, db)
      else if existsb (fun r => cond_raises params r (sel_where q))
                      (scan E t) then
        (Raise (OperationalError pattern_too_complex), db)
      else
        (Ok (map (project (sel_columns q))
                 (filter (fun r => eval_cond params r (sel_where q))
                         (scan E t))),
         db)
    end.

(** The largest rowid of SQLite. *)
Definition MAX_ROWID : Z := 2 ^ 63 - 1.

(** The least positive id that no record has. *)
Definition unused_id (t : table) : Z :=
  match find (fun i => negb (existsb (Z.eqb i) (map u_id t)))
             (map Z.of_nat (seq 1 (S (length t)))) with
  | Some i => i
  | None => 0
  end.

(** The id of an inserted record: 1 in an empty table, else one more than
    the largest id in use; when that is the largest rowid, SQLite draws an
    unused id at random, for which the least one stands here. *)
Definition next_id (t : table) : Z :=
  match t with
  | [] => 1
  | r :: t' =>
    let largest := fold_left Z.max (map u_id t') (u_id r) in
    if largest <? MAX_ROWID then 1 + largest else unused_id t
  end.

Definition has_username (username : str) (t : table) : bool :=
  existsb (fun r => str_eqb (u_username r) username) t.

(** [cursor.execute("INSERT INTO users (username, password, email,
    is_admin) VALUES (?, ?, ?, ?)", ...)]: prepared, bound, then run; a
    statement that breaks UNIQUE(username) raises and inserts nothing. *)
Definition execute_insert (username password email : str) (is_admin : Z)
  : M unit :=
  fun db =>
    match db with
    | None => (Raise (OperationalError no_such_table), db)
    | Some t =>
      if negb (encodable username && encodable password && encodable email)
      then (Raise UnicodeEncodeError, db)
      else if has_username username t
      then (Raise (IntegrityError (UNIQUE (TextCol Username))), db)
      else (Ok tt,
            Some (t ++ [mkRow (next_id t) username password email is_admin]))
    end.

(** [cursor.execute("CREATE TABLE IF NOT EXISTS users (...)")]. *)
Definition execute_create_table : M unit :=
  fun db =>
    match db with
    | None => (Ok tt, Some [])
    | Some t => (Ok tt, Some t)
    end.

(** [connection.commit()]: the records the connection sees stay as they are. *)
Definition commit : M unit := ret tt.

(** ** UserManager *)

Definition AUTH_SQL : select :=
  (* SELECT * FROM users WHERE username = ? AND password = ? *)
  mkSelect Star
    (And (Eq (Col Username) (Param 0)) (Eq (Col Password) (Param 1))).

Definition PERMISSIONS_SQL : select :=
  (* SELECT is_admin FROM users WHERE username = ? *)
  mkSelect (Columns [IsAdmin]) (Eq (Col Username) (Param 0)).

Definition PREFIX_SQL : select :=
  (* SELECT username FROM users WHERE username LIKE ? || '%' *)
  mkSelect (Columns [TextCol Username])
    (Like (Col Username) (Concat (Param 0) (Lit [percent]))).

(** [t[0]] on a tuple. *)
Definition item0 (t : list value) : M value :=
  match t with
  | v :: _ => ret v
  | [] => raise IndexError
  end.

Fixpoint mapM {A B} (f : A -> M B) (l : list A) : M (list B) :=
  match l with
  | [] => ret []
  | a :: l' => b <- f a ;; bs <- mapM f l' ;; ret (b :: bs)
  end.

Definition setup_database : M unit :=
  execute_create_table ;;
  commit.

Definition not_found_message (username : str) : str :=
  lit "User '" ++ username ++ lit "' not found in database".

(** [s.encode()]: the UTF-8 octets, or UnicodeEncodeError. *)
Definition encode (s : str) : M bytes :=
  if encodable s then ret (utf8 s) else raise UnicodeEncodeError.

(** [UserManager.hash_password]:
    [hashlib.sha256(password.encode()).hexdigest()]. *)
Definition self_hash_password (password : str) : M str :=
  octets <- encode password ;;
  ret (SHA256.hexdigest octets).

Section Operations.

Variable E : engine.

Definition authenticate_user (username password : str) : M bool :=
  hashed_password <- self_hash_password password ;;
  cur <- execute E AUTH_SQL [username; hashed_password] ;;
  let result := fetchone cur in
  ret (match result with None => false | Some _ => true end).

Definition get_user_permissions (username : str) : M value :=
  cur <- execute E PERMISSIONS_SQL [username] ;;
  match fetchone cur with
  | None => raise (ValueError (not_found_message username))
  | Some result => item0 result
  end.

Definition find_users_by_prefix (prefix : str) : M (list value) :=
  cur <- execute E PREFIX_SQL [prefix] ;;
  let results := fetchall cur in
  mapM item0 results.

End Operations.

(** The try block of [create_user] around an insert statement. *)
Definition create_user_from (insert : M unit) : M bool :=
  try_except (insert ;; commit ;; ret true) is_IntegrityError (ret false).

Definition create_user (username password email : str) (is_admin : bool)
  : M bool :=
  hashed_password <- self_hash_password password ;;
  create_user_from
    (execute_insert username hashed_password email (Z.b2z is_admin)).

(** [UserManager(db_path)]: the connection opened on the location, then
    setup_database. *)
Definition __init__ : M unit := setup_database.

(** A run of create_user calls, results dropped. *)
Fixpoint create_users (calls : list (str * str * str * bool)) : M unit :=
  match calls with
  | [] => ret tt
  | (username, password, email, is_admin) :: calls' =>
    create_user username password email is_admin ;;
    create_users calls'
  end.

(** ** Two engines *)

(** Records visited in insertion order. *)
Definition insertion_order : engine :=
  mkEngine (fun t => t) (fun t => Permutation_refl t).

(** [a <= b] on text, code point by code point. *)
Fixpoint str_leb (a b : str) : bool :=
  match a, b with
  | [], _ => true
  | _ :: _, [] => false
  | x :: a', y :: b' => (x <? y)%N || ((x =? y)%N && str_leb a' b')
  end.

Fixpoint insert_by_username (r : row) (l : list row) : list row :=
  match l with
  | [] => [r]
  | x :: l' =>
    if str_leb (u_username r) (u_username x) then r :: l
    else x :: insert_by_username r l'
  end.

Definition by_username (t : table) : list row :=
  fold_right insert_by_username [] t.

(** Records visited in the order of the index that UNIQUE(username) keeps,
    by username: the scan SQLite chooses for a SELECT of the username
    column alone. *)
Definition username_order : engine.
Proof.
  refine (mkEngine by_username _).
  assert (Hins : forall r l, Permutation (insert_by_username r l) (r :: l)).
  { intros r l. induction l as [| x l IH]; simpl.
    - apply Permutation_refl.
    - destruct (str_leb (u_username r) (u_username x)).
      + apply Permutation_refl.
      + apply Permutation_trans with (x :: r :: l).
        * now apply perm_skip.
        * apply perm_swap. }
  intros t. induction t as [| r t IH]; simpl.
  - apply perm_nil.
  - apply Permutation_trans with (r :: by_username t).
    + apply Hins.
    + now apply perm_skip.
Defined.

(** ** The demo of the source *)

(** The three create_user calls of the script, on a fresh [users.db]. *)
Definition demo_users : M unit :=
  __init__ ;;
  create_user (lit "admin") (lit "password123") (lit "admin@example.com") true ;;
  create_user (lit "john_doe") (lit "mypassword") (lit "john@example.com") false ;;
  create_user (lit "jane_smith") (lit "secret456") (lit "jane@example.com") false ;;
  ret tt.

Definition demo_db : database := Eval vm_compute in snd (demo_users None).

(** A store that holds the demo's administrator only. *)
Definition admin_db : database :=
  Eval vm_compute in
  snd ((__init__ ;;
        create_user (lit "admin") (lit "password123")
                    (lit "admin@example.com") true) None).

(** The records of the demo. *)
Definition demo_table : table :=
  match demo_db with Some t => t | None => [] end.

(** ** Calls in a row *)

(** A call of one of the four operations on an open store. *)
Inductive call :=
| Create (username password email : str) (is_admin : bool)
| Authenticate (username password : str)
| Permissions (username : str)
| Find (prefix : str).

(** The call with its result dropped; an exception ends the run. *)
Definition run_call (E : engine) (c : call) : M unit :=
  match c with
  | Create username password email is_admin =>
    create_user username password email is_admin ;; ret tt
  | Authenticate username password =>
    authenticate_user E username password ;; ret tt
  | Permissions username => get_user_permissions E username ;; ret tt
  | Find prefix => find_users_by_prefix E prefix ;; ret tt
  end.

Fixpoint run_calls (E : engine) (calls : list call) : M unit :=
  match calls with
  | [] => ret tt
  | c :: calls' => run_call E c ;; run_calls E calls'
  end.

(** ** Transactions, commit and close *)

(** The operations once more, on a connection that tells what is committed
    at the location from what an open transaction holds. The sqlite3 module
    opens a transaction before an INSERT when none is open; [commit] makes
    the transaction's view the committed one; [close] commits nothing. *)
Module Tx.

Record connection := mkConnection {
  committed : database;
  pending : option database
}.

(** What the statements of the connection see. *)
Definition view (c : connection) : database :=
  match pending c with
  | Some db => db
  | None => committed c
  end.

Definition T (A : Type) : Type := connection -> outcome A * connection.

Definition ret {A} (a : A) : T A := fun c => (Ok a, c).
Definition raise {A} (e : exn) : T A := fun c => (Raise e, c).
Definition bind {A B} (m : T A) (k : A -> T B) : T B :=
  fun c =>
    match m c with
    | (Ok a, c') => k a c'
    | (Raise e, c') => (Raise e, c')
    end.

Definition try_except {A} (body : T A) (handles : exn -> bool) (handler : T A)
  : T A :=
  fun c =>
    match body c with
    | (Ok a, c') => (Ok a, c')
    | (Raise e, c') => if handles e then handler c' else (Raise e, c')
    end.

(** A statement run where the connection stands: inside the open
    transaction, or else committed at once. *)
Definition statement {A} (m : M A) : T A :=
  fun c =>
    match m (view c) with
    | (r, db') =>
      (r, match pending c with
          | Some _ => mkConnection (committed c) (Some db')
          | None => mkConnection db' None
          end)
    end.

(** The transaction sqlite3 opens before an INSERT. *)
Definition begin_transaction : T unit :=
  fun c =>
    (Ok tt, match pending c with
            | Some _ => c
            | None => mkConnection (committed c) (Some (committed c))
            end).

(** An INSERT: once it is prepared (the table exists) the transaction is
    opened, then the parameters are bound and the statement is run. *)
Definition modifying_statement {A} (m : M A) : T A :=
  fun c =>
    match view c with
    | None => statement m c
    | Some _ => bind begin_transaction (fun _ => statement m) c
    end.

(** [connection.commit()]. *)
Definition commit : T unit :=
  fun c => (Ok tt, mkConnection (view c) None).

(** [sqlite3.connect(db_path)] on a location. *)
Definition connect (location : database) : connection :=
  mkConnection location None.

(** [UserManager.close]: [self.connection.close()]; what it leaves at the
    location. *)
Definition close (c : connection) : database := committed c.

Definition item0 (t : list value) : T value :=
  match t with
  | v :: _ => ret v
  | [] => raise IndexError
  end.

Definition self_hash_password (password : str) : T str :=
  if encodable password then ret (SHA256.hexdigest (utf8 password))
  else raise UnicodeEncodeError.

Fixpoint mapM {A B} (f : A -> T B) (l : list A) : T (list B) :=
  match l with
  | [] => ret []
  | a :: l' =>
    bind (f a) (fun b => bind (mapM f l') (fun bs => ret (b :: bs)))
  end.

Definition setup_database : T unit :=
  bind (statement execute_create_table) (fun _ => commit).

Definition __init__ (db_path : database) : outcome unit * connection :=
  setup_database (connect db_path).

Section Operations.

Variable E : engine.

Definition authenticate_user (username password : str) : T bool :=
  bind (self_hash_password password)
       (fun hashed_password =>
          bind (statement (execute E AUTH_SQL [username; hashed_password]))
               (fun cur =>
                  let result := fetchone cur in
                  ret (match result with None => false | Some _ => true end))).

Definition get_user_permissions (username : str) : T value :=
  bind (statement (execute E PERMISSIONS_SQL [username]))
       (fun cur =>
          match fetchone cur with
          | None => raise (ValueError (not_found_message username))
          | Some result => item0 result
          end).

Definition find_users_by_prefix (prefix : str) : T (list value) :=
  bind (statement (execute E PREFIX_SQL [prefix]))
       (fun cur =>
          let results := fetchall cur in
          mapM item0 results).

End Operations.

Definition create_user (username password email : str) (is_admin : bool)
  : T bool :=
  bind (self_hash_password password)
       (fun hashed_password =>
          try_except
            (bind (modifying_statement
                     (execute_insert username hashed_password email
                                     (Z.b2z is_admin)))
                  (fun _ => bind commit (fun _ => ret true)))
            is_IntegrityError
            (ret false)).

Definition run_call (E : engine) (c : call) : T unit :=
  match c with
  | Create username password email is_admin =>
    bind (create_user username password email is_admin) (fun _ => ret tt)
  | Authenticate username password =>
    bind (authenticate_user E username password) (fun _ => ret tt)
  | Permissions username =>
    bind (get_user_permissions E username) (fun _ => ret tt)
  | Find prefix => bind (find_users_by_prefix E prefix) (fun _ => ret tt)
  end.

Fixpoint run_calls (E : engine) (calls : list call) : T unit :=
  match calls with
  | [] => ret tt
  | c :: calls' => bind (run_call E c) (fun _ => run_calls E calls')
  end.

(** Nothing is waiting for a commit. *)
Definition settled (c : connection) : Prop := view c = committed c.

(** A computation on the connection gives the result of a computation on
    the store it sees, and ends seeing the store that one ends with. *)
Definition simulates {A} (mt : T A) (m : M A) : Prop :=
  forall c : connection,
    fst (mt c) = fst (m (view c)) /\ view (snd (mt c)) = snd (m (view c)).

End Tx.

(** ** Vocabulary of the statements *)

(** The records that bear a username. *)
Definition named (username : str) (r : row) : bool :=
  str_eqb (u_username r) username.

(** The records that bear a username and a password hash. *)
Definition credentials (username hashed_password : str) (r : row) : bool :=
  str_eqb (u_username r) username && str_eqb (u_password r) hashed_password.

(** [s.startswith(prefix)]. *)
Fixpoint starts_with (prefix s : str) : bool :=
  match prefix, s with
  | [], _ => true
  | _ :: _, [] => false
  | a :: prefix', b :: s' => (a =? b)%N && starts_with prefix' s'
  end.

(** One of 0-9 a-f. *)
Definition is_lower_hex (c : N) : bool :=
  (((48 <=? c) && (c <=? 57)) || ((97 <=? c) && (c <=? 102)))%N.

(** UNIQUE(username) and PRIMARY KEY(id). *)
Definition users_wf (t : table) : Prop :=
  NoDup (map u_username t) /\ NoDup (map u_id t).


(** A location the connection can be opened on: no users table yet, or
    one that respects its constraints. *)
Definition location_wf (db : database) : Prop :=
  match db with
  | None => True
  | Some t => users_wf t
  end.

(** * Properties *)

Arguments hash_password : simpl never.
Arguments str_eqb : simpl never.
Arguments encodable : simpl never.
Arguments pattern_too_long : simpl never.

(** ** Text and lists *)

(** ** Text and lists *)

Lemma str_eqb_eq (a b : str) : str_eqb a b = true <-> a = b.
Proof.
  unfold str_eqb. destruct (list_eq_dec N.eq_dec a b); split; congruence.
Qed.

Lemma str_eqb_refl (a : str) : str_eqb a a = true.
Proof. now apply str_eqb_eq. Qed.

Lemma str_eqb_neq (a b : str) : str_eqb a b = false <-> a <> b.
Proof.
  unfold str_eqb. destruct (list_eq_dec N.eq_dec a b); split; congruence.
Qed.

Lemma filter_permutation {A} (f : A -> bool) (l l' : list A) :
  Permutation l l' -> Permutation (filter f l) (filter f l').
Proof.
  induction 1 as [| x l l' _ IH | x y l | l l' l'' _ IH1 _ IH2]; simpl.
  - constructor.
  - destruct (f x); auto.
  - destruct (f x), (f y); auto. apply perm_swap.
  - now transitivity (filter f l').
Qed.

Lemma filter_nil {A} (f : A -> bool) (l : list A) :
  filter f l = [] <-> forall x, In x l -> f x = false.
Proof.
  induction l as [| a l IH]; simpl.
  - split; [intros _ x [] | reflexivity].
  - destruct (f a) eqn:Fa; split.
    + discriminate.
    + intros H. specialize (H a (or_introl eq_refl)). congruence.
    + intros H x [<- | Hx]; [assumption | now apply IH].
    + intros H. apply IH. intros x Hx. apply H. now right.
Qed.

Section Scan.

Variable E : engine.

Lemma scan_In (t : table) (r : row) : In r (scan E t) <-> In r t.
Proof.
  split; apply Permutation_in;
    [apply scan_perm | apply Permutation_sym, scan_perm].
Qed.

Lemma filter_scan_length (f : row -> bool) (t : table) :
  length (filter f (scan E t)) = length (filter f t).
Proof. apply Permutation_length, filter_permutation, scan_perm. Qed.


Lemma scan_nil (t : table) : scan E t = [] <-> t = [].
Proof.
  split; intros H.
  - apply Permutation_nil. rewrite <- H. apply scan_perm.
  - subst t. apply Permutation_nil, Permutation_sym, scan_perm.
Qed.

End Scan.

(** ** Encodable text *)

Lemma chars_to_text (s : str) : encodable s = true -> chars (to_text s) = s.
Proof.
  intros H. unfold to_text.
  destruct (sumbool_of_bool (encodable s)) as [ok | no];
    [reflexivity | congruence].
Qed.

Lemma u_username_encodable (r : row) : encodable (u_username r) = true.
Proof. apply chars_encodable. Qed.

Lemma u_username_mkRow (id : Z) (username password email : str) (flag : Z) :
  encodable username = true ->
  u_username (mkRow id username password email flag) = username.
Proof. apply chars_to_text. Qed.

Lemma u_password_mkRow (id : Z) (username password email : str) (flag : Z) :
  encodable password = true ->
  u_password (mkRow id username password email flag) = password.
Proof. apply chars_to_text. Qed.

Lemma u_email_mkRow (id : Z) (username password email : str) (flag : Z) :
  encodable email = true ->
  u_email (mkRow id username password email flag) = email.
Proof. apply chars_to_text. Qed.

Lemma encodable_app (a b : str) :
  encodable (a ++ b) = encodable a && encodable b.
Proof. apply forallb_app. Qed.

(** ** The digest *)

Lemma digest_shape (msg : bytes) :
  length (SHA256.digest msg) = 32%nat
  /\ Forall (fun b => (b < 256)%N) (SHA256.digest msg).
Proof.
  unfold SHA256.digest.
  destruct (fold_left _ _ _) as [[[[[[[a b] c] d] e] f] g] h].
  split; [reflexivity |].
  cbn [flat_map SHA256.be_bytes seq rev map app].
  repeat constructor; now apply N.mod_lt.
Qed.

Lemma hex_digit_lower (d : N) :
  (d < 16)%N -> is_lower_hex (SHA256.hex_digit d) = true.
Proof.
  intros Hd. unfold SHA256.hex_digit, is_lower_hex.
  destruct (d <? 10)%N eqn:H10.
  - apply N.ltb_lt in H10. apply orb_true_intro. left.
    apply andb_true_intro. split; apply N.leb_le; lia.
  - apply N.ltb_ge in H10. apply orb_true_intro. right.
    apply andb_true_intro. split; apply N.leb_le; lia.
Qed.

Lemma hex_shape (b : bytes) :
  Forall (fun x => (x < 256)%N) b ->
  length (SHA256.hex b) = (2 * length b)%nat
  /\ forallb is_lower_hex (SHA256.hex b) = true.
Proof.
  induction 1 as [| x b Hx _ [IHl IHf]]; [now split |].
  unfold SHA256.hex in *. simpl. rewrite IHl, IHf. split; [lia |].
  rewrite !hex_digit_lower; [reflexivity | |].
  - now apply N.mod_lt.
  - apply N.Div0.div_lt_upper_bound. exact Hx.
Qed.

Lemma hash_password_shape (password : str) :
  length (hash_password password) = 64%nat
  /\ forallb is_lower_hex (hash_password password) = true.
Proof.
  unfold hash_password, SHA256.hexdigest.
  destruct (digest_shape (utf8 password)) as [Hl Hb].
  destruct (hex_shape _ Hb) as [Hl' Hf]. rewrite Hl in Hl'. now split.
Qed.

Lemma lower_hex_scalar (c : N) : is_lower_hex c = true -> is_scalar c = true.
Proof.
  unfold is_lower_hex, is_scalar. intros H.
  apply orb_true_intro. left. apply N.ltb_lt.
  apply orb_prop in H as [H | H]; apply andb_prop in H as [_ H];
    apply N.leb_le in H; lia.
Qed.

Lemma hash_password_encodable (password : str) :
  encodable (hash_password password) = true.
Proof.
  destruct (hash_password_shape password) as [_ H].
  unfold encodable. rewrite forallb_forall in *.
  intros c Hc. apply lower_hex_scalar. now apply H.
Qed.

Lemma sha256_known_answers_hold : sha256_known_answers.
Proof.
  unfold sha256_known_answers.
  split; [vm_compute; reflexivity |].
  split; [vm_compute; reflexivity |].
  split; vm_compute; reflexivity.
Qed.

(** ** The records a username selects *)

(** ** The records a username selects *)

Lemma has_username_In (username : str) (t : table) :
  has_username username t = true <-> In username (map u_username t).
Proof.
  unfold has_username. rewrite existsb_exists, in_map_iff.
  split; intros [r [H1 H2]]; exists r.
  - apply str_eqb_eq in H2. now split.
  - split; [assumption | now apply str_eqb_eq].
Qed.

Lemma named_absent (username : str) (t : table) :
  ~ In username (map u_username t) -> filter (named username) t = [].
Proof.
  intros H. apply filter_nil. intros r Hr. apply str_eqb_neq.
  intros Heq. apply H. rewrite <- Heq. now apply in_map.
Qed.

Lemma credentials_absent (username h : str) (t : table) :
  ~ In username (map u_username t) -> filter (credentials username h) t = [].
Proof.
  intros H. apply filter_nil. intros r Hr. unfold credentials.
  apply andb_false_intro1, str_eqb_neq.
  intros Heq. apply H. rewrite <- Heq. now apply in_map.
Qed.


Lemma absent_has_username (username : str) (t : table) :
  ~ In username (map u_username t) <-> has_username username t = false.
Proof.
  rewrite <- has_username_In. destruct (has_username username t);
    split; congruence.
Qed.

Lemma unique_named (t : table) (r : row) :
  NoDup (map u_username t) -> In r t ->
  filter (named (u_username r)) t = [r].
Proof.
  induction t as [| a t IH]; intros Hnd Hin; [destruct Hin |].
  inversion Hnd as [| ? ? Hnotin Hnd']; subst. simpl.
  destruct Hin as [-> | Hin].
  - unfold named at 1. rewrite str_eqb_refl.
    now rewrite (named_absent _ _ Hnotin).
  - unfold named at 1. destruct (str_eqb (u_username a) (u_username r)) eqn:He.
    + apply str_eqb_eq in He. exfalso. apply Hnotin. rewrite He.
      now apply in_map.
    + now apply IH.
Qed.

Lemma filter_credentials (username h : str) (t : table) :
  filter (credentials username h) t
  = filter (fun r => str_eqb (u_password r) h) (filter (named username) t).
Proof.
  induction t as [| a t IH]; [reflexivity |].
  simpl. unfold credentials at 1, named at 1.
  destruct (str_eqb (u_username a) username); simpl.
  - now rewrite IH.
  - exact IH.
Qed.

(** ** What each operation computes *)

Lemma AUTH_SQL_where (username h : str) (r : row) :
  eval_cond [username; h] r (sel_where AUTH_SQL) = credentials username h r.
Proof. reflexivity. Qed.

Lemma PERMISSIONS_SQL_where (username : str) (r : row) :
  eval_cond [username] r (sel_where PERMISSIONS_SQL) = named username r.
Proof. reflexivity. Qed.

Lemma PREFIX_SQL_where (prefix : str) (r : row) :
  eval_cond [prefix] r (sel_where PREFIX_SQL)
  = sql_like (prefix ++ [percent]) (u_username r).
Proof. reflexivity. Qed.

Lemma existsb_false {A} (l : list A) : existsb (fun _ => false) l = false.
Proof. induction l; [reflexivity | exact IHl]. Qed.

Lemma existsb_const {A} (b : bool) (l : list A) :
  existsb (fun _ => b) l = b && match l with [] => false | _ :: _ => true end.
Proof.
  destruct b; [| apply existsb_false]. now destruct l.
Qed.

Lemma self_hash_password_run (password : str) (db : database) :
  self_hash_password password db
  = if encodable password then (Ok (hash_password password), db)
    else (Raise UnicodeEncodeError, db).
Proof.
  unfold self_hash_password, encode, bind.
  now destruct (encodable password).
Qed.

Lemma existsb_all_false {A} (f : A -> bool) (l : list A) :
  (forall x, f x = false) -> existsb f l = false.
Proof.
  intros H. induction l as [| a l IH]; [reflexivity |].
  simpl. now rewrite H, IH.
Qed.

Lemma existsb_same {A} (f : A -> bool) (b : bool) (l : list A) :
  (forall x, f x = b) ->
  existsb f l = b && match l with [] => false | _ :: _ => true end.
Proof.
  intros H. induction l as [| a l IH]; [now rewrite andb_false_r |].
  simpl. rewrite H, IH. now destruct b, l.
Qed.

(** A SELECT on a store that has the table, with as many parameters as
    the statement has [?]. *)
Lemma execute_Some (E : engine) (q : select) (params : list str) (t : table) :
  cond_params (sel_where q) = length params ->
  execute E q params (Some t)
  = if forallb encodable params then
      if existsb (fun r => cond_raises params r (sel_where q)) (scan E t)
      then (Raise (OperationalError pattern_too_complex), Some t)
      else (Ok (map (project (sel_columns q))
                    (filter (fun r => eval_cond params r (sel_where q))
                            (scan E t))),
            Some t)
    else (Raise UnicodeEncodeError, Some t).
Proof.
  intros H. unfold execute. rewrite H, Nat.eqb_refl. cbn [negb].
  now destruct (forallb encodable params).
Qed.

Lemma AUTH_SQL_raises (params : list str) (r : row) :
  cond_raises params r (sel_where AUTH_SQL) = false.
Proof. simpl. apply andb_false_r. Qed.

Lemma authenticate_user_run (E : engine) (username password : str) (t : table) :
  authenticate_user E username password (Some t)
  = if encodable password && encodable username then
      (Ok (negb (Nat.eqb
             (length (filter (credentials username (hash_password password))
                             (scan E t))) 0)),
       Some t)
    else (Raise UnicodeEncodeError, Some t).
Proof.
  unfold authenticate_user. unfold bind at 1.
  rewrite self_hash_password_run.
  destruct (encodable password); [| reflexivity].
  unfold bind. rewrite execute_Some by reflexivity.
  cbn [forallb]. rewrite hash_password_encodable, !andb_true_r.
  destruct (encodable username); [| reflexivity].
  rewrite (existsb_all_false _ _ (AUTH_SQL_raises _)).
  rewrite (filter_ext _ _ (AUTH_SQL_where username (hash_password password))).
  unfold ret, fetchone. cbn [andb].
  now destruct (filter _ _).
Qed.

Lemma authenticate_user_None (E : engine) (username password : str) :
  authenticate_user E username password None
  = if encodable password then (Raise (OperationalError no_such_table), None)
    else (Raise UnicodeEncodeError, None).
Proof.
  unfold authenticate_user. unfold bind at 1.
  rewrite self_hash_password_run.
  now destruct (encodable password).
Qed.

Lemma create_user_run (username password email : str) (is_admin : bool)
      (db : database) :
  create_user username password email is_admin db
  = if encodable password then
      match db with
      | None => (Raise (OperationalError no_such_table), None)
      | Some t =>
        if encodable username && encodable email then
          if has_username username t then (Ok false, Some t)
          else (Ok true,
                Some (t ++ [mkRow (next_id t) username
                                  (hash_password password)
                                  email (Z.b2z is_admin)]))
        else (Raise UnicodeEncodeError, Some t)
      end
    else (Raise UnicodeEncodeError, db).
Proof.
  unfold create_user. unfold bind at 1. rewrite self_hash_password_run.
  destruct (encodable password); [| reflexivity].
  unfold create_user_from, try_except, bind, execute_insert, commit, ret.
  destruct db as [t |]; [| reflexivity].
  rewrite hash_password_encodable, andb_true_r.
  destruct (encodable username), (encodable email); try reflexivity.
  cbn [andb negb]. now destruct (has_username username t).
Qed.

Lemma create_user_success (username password email : str) (is_admin : bool)
      (db db' : database) :
  create_user username password email is_admin db = (Ok true, db') ->
  exists t,
    db = Some t /\ ~ In username (map u_username t) /\
    encodable username = true /\ encodable password = true /\
    encodable email = true /\
    db' = Some (t ++ [mkRow (next_id t) username (hash_password password)
                            email (Z.b2z is_admin)]).
Proof.
  rewrite create_user_run.
  destruct (encodable password); [| discriminate].
  destruct db as [t |]; [| discriminate].
  destruct (encodable username), (encodable email); try discriminate.
  cbn [andb].
  destruct (has_username username t) eqn:Hu; [discriminate |].
  intros [= <-]. exists t. repeat split.
  now apply absent_has_username.
Qed.

(** The record create_user appends bears the username and the digest. *)
Lemma created_row_named (username h email : str) (flag : Z) (t : table) :
  encodable username = true ->
  ~ In username (map u_username t) ->
  filter (named username) (t ++ [mkRow (next_id t) username h email flag])
  = [mkRow (next_id t) username h email flag].
Proof.
  intros He Habs. rewrite filter_app, (named_absent _ _ Habs). simpl.
  unfold named. now rewrite (u_username_mkRow _ _ _ _ _ He), str_eqb_refl.
Qed.

Lemma authenticate_named_one (E : engine) (username password : str)
      (t : table) (r : row) :
  filter (named username) t = [r] ->
  u_password r = hash_password password ->
  encodable password = true ->
  authenticate_user E username password (Some t) = (Ok true, Some t).
Proof.
  intros Hf Hp He.
  assert (Hu : u_username r = username).
  { assert (Hin : In r (filter (named username) t)) by (rewrite Hf; now left).
    apply filter_In in Hin as [_ Hn]. now apply str_eqb_eq in Hn. }
  rewrite authenticate_user_run, He, <- Hu, u_username_encodable. cbn [andb].
  rewrite filter_scan_length, filter_credentials, Hu, Hf. simpl.
  now rewrite Hp, str_eqb_refl.
Qed.

(** ** authenticate_user *)


(** C4: after create_user has returned true, authenticate_user with the
    same username and password returns true. *)
Theorem create_user_then_authenticate
        (E : engine) (username password email : str) (is_admin : bool)
        (db db' : database) :
  create_user username password email is_admin db = (Ok true, db') ->
  authenticate_user E username password db' = (Ok true, db').
Proof.
  intros H.
  apply create_user_success in H as (t & -> & Habs & Hu & Hp & He & ->).
  apply authenticate_named_one
    with (r := mkRow (next_id t) username (hash_password password) email
                     (Z.b2z is_admin)).
  - now apply created_row_named.
  - apply u_password_mkRow, hash_password_encodable.
  - exact Hp.
Qed.

(** C6: the injection string is compared with the stored usernames as any
    other username is. Whatever the two arguments, the WHERE clause of the
    statement is the test that the record's username and password columns
    equal the bound values; so on a store where no record bears the string
    itself authenticate_user returns false. *)
Theorem authenticate_user_injection (E : engine) (t : table) :
  ~ In (lit "admin' OR '1'='1") (map u_username t) ->
  authenticate_user E (lit "admin' OR '1'='1") (lit "anything") (Some t)
  = (Ok false, Some t)
  /\ forall (username password : str) (r : row),
       eval_cond [username; hash_password password] r (sel_where AUTH_SQL)
       = true
       <-> u_username r = username
           /\ u_password r = hash_password password.
Proof.
  intros Habs. split.
  - rewrite authenticate_user_run.
    replace (encodable (lit "anything")) with true by reflexivity.
    replace (encodable (lit "admin' OR '1'='1")) with true by reflexivity.
    cbn [andb]. rewrite filter_scan_length.
    now rewrite (credentials_absent _ _ _ Habs).
  - intros username password r. rewrite AUTH_SQL_where. unfold credentials.
    now rewrite andb_true_iff, !str_eqb_eq.
Qed.

(** ** create_user *)


(** C7: a create_user that succeeds appends one record to the table, with
    the username, the e-mail and the flag given; its password column is
    the hexadecimal SHA-256 digest of the UTF-8 encoding of the password
    (the function that gives the digests of FIPS 180), 64 characters among
    0-9 a-f. The password enters the record through that digest only: a
    password with the same digest gives a record with the same columns
    (the id, which SQLite may draw at random, left aside), and the
    password column is the password itself only if the password is its own
    digest, 64 characters among 0-9 a-f. *)
Theorem create_user_stores_hash
        (username password email : str) (is_admin : bool)
        (db db' : database) :
  create_user username password email is_admin db = (Ok true, db') ->
  exists (t : table) (r : row),
    db = Some t /\ db' = Some (t ++ [r])
    /\ u_username r = username /\ u_email r = email
    /\ u_is_admin r = Z.b2z is_admin
    /\ u_password r = SHA256.hex (SHA256.digest (utf8 password))
    /\ sha256_known_answers
    /\ length (u_password r) = 64%nat
    /\ forallb is_lower_hex (u_password r) = true
    /\ (u_password r = password ->
        SHA256.hex (SHA256.digest (utf8 password)) = password
        /\ length password = 64%nat
        /\ forallb is_lower_hex password = true)
    /\ (forall password2 : str,
           encodable password2 = true ->
           SHA256.hex (SHA256.digest (utf8 password2))
           = SHA256.hex (SHA256.digest (utf8 password)) ->
           exists r2 : row,
             create_user username password2 email is_admin db
             = (Ok true, Some (t ++ [r2]))
             /\ u_username r2 = u_username r
             /\ u_password r2 = u_password r
             /\ u_email r2 = u_email r
             /\ u_is_admin r2 = u_is_admin r).
Proof.
  intros H.
  pose proof H as Hrun.
  apply create_user_success in H as (t & -> & Habs & Hu & Hp & He & ->).
  destruct (hash_password_shape password) as [Hl Hf].
  assert (Hpw : u_password (mkRow (next_id t) username (hash_password password)
                                  email (Z.b2z is_admin))
                = hash_password password)
    by apply u_password_mkRow, hash_password_encodable.
  eexists. eexists. split; [reflexivity |]. split; [reflexivity |].
  rewrite Hpw.
  split; [now apply u_username_mkRow |].
  split; [now apply u_email_mkRow |].
  split; [reflexivity |]. split; [reflexivity |].
  split; [exact sha256_known_answers_hold |].
  split; [exact Hl |]. split; [exact Hf |]. split.
  - intros Heq. split; [exact Heq |]. rewrite <- Heq. now split.
  - intros password2 Hp2 Hd.
    change (hash_password password2 = hash_password password) in Hd.
    rewrite create_user_run, Hp2, Hu, He, Hd. cbn [andb].
    rewrite (proj1 (absent_has_username _ _) Habs).
    eexists. split; [reflexivity |]. now repeat split.
Qed.

(** C10: whatever integrity constraint the insert statement breaks, the
    try block of create_user answers false and the store stays as the
    failed statement left it; and create_user itself never ends in an
    IntegrityError, and changes the store only when it returns true. *)
Theorem create_user_integrity_error_returns_false
        (insert : M unit) (c : constraint) (db db' : database) :
  insert db = (Raise (IntegrityError c), db') ->
  create_user_from insert db = (Ok false, db')
  /\ forall (username password email : str) (is_admin : bool)
            (db0 db1 : database) (out : outcome bool),
       create_user username password email is_admin db0 = (out, db1) ->
       (forall c0, out <> Raise (IntegrityError c0))
       /\ (out <> Ok true -> db1 = db0).
Proof.
  intros H. split.
  - unfold create_user_from, try_except, bind. now rewrite H.
  - intros username password email is_admin db0 db1 out.
    rewrite create_user_run.
    destruct (encodable password); [| intros [= <- <-]; split; congruence].
    destruct db0 as [t |]; [| intros [= <- <-]; split; congruence].
    destruct (encodable username && encodable email);
      [| intros [= <- <-]; split; congruence].
    destruct (has_username username t); intros [= <- <-]; split; congruence.
Qed.

(** ** get_user_permissions *)

Lemma get_user_permissions_run (E : engine) (username : str) (t : table) :
  get_user_permissions E username (Some t)
  = if encodable username then
      match filter (named username) (scan E t) with
      | [] => (Raise (ValueError (not_found_message username)), Some t)
      | r :: _ => (Ok (Int (u_is_admin r)), Some t)
      end
    else (Raise UnicodeEncodeError, Some t).
Proof.
  unfold get_user_permissions, bind. rewrite execute_Some by reflexivity.
  cbn [forallb]. rewrite andb_true_r.
  destruct (encodable username); [| reflexivity].
  rewrite (existsb_all_false _ _ (fun r => eq_refl)).
  rewrite (filter_ext _ _ (PERMISSIONS_SQL_where username)).
  unfold fetchone. now destruct (filter _ _).
Qed.

Lemma get_user_permissions_flag (E : engine) (t : table) (r : row) :
  filter (named (u_username r)) t = [r] ->
  get_user_permissions E (u_username r) (Some t)
  = (Ok (Int (u_is_admin r)), Some t).
Proof.
  intros H. rewrite get_user_permissions_run, u_username_encodable.
  assert (Hone : filter (named (u_username r)) (scan E t) = [r]).
  { apply Permutation_length_1_inv, Permutation_sym.
    rewrite <- H. apply filter_permutation, scan_perm. }
  now rewrite Hone.
Qed.

(** Records are added, never changed: the records that bear a username
    stay the same once there is one, however a create_user ends. *)
Lemma create_user_keeps_named (username : str) (r : row)
      (u p e : str) (a : bool) (t : table)
      (out : outcome bool) (db' : database) :
  filter (named username) t = [r] ->
  create_user u p e a (Some t) = (out, db') ->
  exists t' : table, db' = Some t' /\ filter (named username) t' = [r].
Proof.
  intros H. rewrite create_user_run.
  destruct (encodable p); [| intros [= _ <-]; now exists t].
  destruct (encodable u) eqn:Hu; [| intros [= _ <-]; now exists t].
  destruct (encodable e); [| intros [= _ <-]; now exists t].
  cbn [andb]. destruct (has_username u t) eqn:Hh; intros [= _ <-].
  - now exists t.
  - eexists. split; [reflexivity |].
    rewrite filter_app, H. simpl. unfold named at 1.
    rewrite (u_username_mkRow _ _ _ _ _ Hu).
    destruct (str_eqb u username) eqn:Heq; [| reflexivity].
    apply str_eqb_eq in Heq. subst u. exfalso.
    assert (Hin : In r (filter (named username) t)) by (rewrite H; now left).
    apply filter_In in Hin as [Hin Hn]. apply str_eqb_eq in Hn.
    assert (Hh' : has_username username t = true).
    { apply has_username_In. rewrite <- Hn. now apply in_map. }
    congruence.
Qed.

Lemma create_users_keep_named (username : str) (r : row)
      (calls : list (str * str * str * bool)) :
  forall (t : table) (out : outcome unit) (db' : database),
    filter (named username) t = [r] ->
    create_users calls (Some t) = (out, db') ->
    exists t' : table, db' = Some t' /\ filter (named username) t' = [r].
Proof.
  induction calls as [| [[[u p] e] a] calls IH]; intros t out db' H Hc.
  - injection Hc as _ <-. now exists t.
  - cbn [create_users] in Hc. unfold bind in Hc.
    destruct (create_user u p e a (Some t)) as [o d1] eqn:H1.
    destruct (create_user_keeps_named username r u p e a t o d1 H H1)
      as (t1 & -> & Hn1).
    destruct o as [b | ex].
    + exact (IH t1 out db' Hn1 Hc).
    + injection Hc as _ <-. now exists t1.
Qed.


(** ** find_users_by_prefix *)

Lemma mapM_item0_project (l : list row) (db : database) :
  mapM item0 (map (project (Columns [TextCol Username])) l) db
  = (Ok (map (fun r => Text (u_username r)) l), db).
Proof.
  induction l as [| r l IH]; [reflexivity |].
  cbn [map mapM]. unfold bind at 1. cbn [project map col_value col_text item0].
  unfold ret at 1. unfold bind at 1. rewrite IH. reflexivity.
Qed.

Lemma scan_nonempty (E : engine) (t : table) :
  match scan E t with [] => false | _ :: _ => true end
  = match t with [] => false | _ :: _ => true end.
Proof.
  destruct t as [| r t].
  - now rewrite (proj2 (scan_nil E []) eq_refl).
  - destruct (scan E (r :: t)) eqn:Hs; [| reflexivity].
    apply scan_nil in Hs. discriminate.
Qed.

Lemma find_users_by_prefix_run (E : engine) (prefix : str) (t : table) :
  find_users_by_prefix E prefix (Some t)
  = if encodable prefix then
      if pattern_too_long (prefix ++ [percent])
         && match t with [] => false | _ :: _ => true end
      then (Raise (OperationalError pattern_too_complex), Some t)
      else (Ok (map (fun r => Text (u_username r))
                    (filter (fun r => sql_like (prefix ++ [percent])
                                               (u_username r))
                            (scan E t))),
            Some t)
    else (Raise UnicodeEncodeError, Some t).
Proof.
  unfold find_users_by_prefix, bind. rewrite execute_Some by reflexivity.
  cbn [forallb]. rewrite andb_true_r.
  destruct (encodable prefix); [| reflexivity].
  rewrite (existsb_same _ (pattern_too_long (prefix ++ [percent])))
    by reflexivity.
  rewrite scan_nonempty.
  destruct (pattern_too_long (prefix ++ [percent])
            && match t with [] => false | _ :: _ => true end);
    [reflexivity |].
  rewrite (filter_ext _ _ (PREFIX_SQL_where prefix)).
  apply mapM_item0_project.
Qed.

Lemma like_percent_unfold (pattern s : str) :
  like (percent :: pattern) s
  = like pattern s
    || match s with [] => false | _ :: s' => like (percent :: pattern) s' end.
Proof. destruct s; reflexivity. Qed.

Lemma like_percent_all (s : str) : like [percent] s = true.
Proof.
  induction s as [| c s IH]; [reflexivity |].
  rewrite like_percent_unfold, IH. apply orb_true_r.
Qed.

(** A string matches itself as a pattern, so no username that starts with
    the prefix is missed. *)
Lemma like_starts_with (prefix s : str) :
  starts_with prefix s = true -> like (prefix ++ [percent]) s = true.
Proof.
  revert s. induction prefix as [| c prefix IH]; intros s H.
  - apply like_percent_all.
  - destruct s as [| d s]; [discriminate |].
    simpl in H. apply andb_prop in H as [Hc Hs]. apply N.eqb_eq in Hc.
    subst d. specialize (IH s Hs). simpl app.
    destruct (N.eqb c percent) eqn:Hp.
    + apply N.eqb_eq in Hp. subst c.
      rewrite like_percent_unfold.
      replace (like (percent :: prefix ++ [percent]) s) with true.
      * apply orb_true_r.
      * symmetry. rewrite like_percent_unfold. now rewrite IH.
    + simpl. rewrite Hp. destruct (N.eqb c underscore); [exact IH |].
      now rewrite N.eqb_refl.
Qed.


(** A string matches itself as a pattern. *)
Lemma like_self (p : str) : like p p = true.
Proof.
  induction p as [| c p IH]; [reflexivity |].
  destruct (N.eq_dec c percent) as [-> | Hc].
  - rewrite like_percent_unfold.
    replace (like (percent :: p) p) with true; [apply orb_true_r |].
    symmetry. rewrite like_percent_unfold. now rewrite IH.
  - apply N.eqb_neq in Hc. simpl. rewrite Hc.
    destruct (N.eqb c underscore); [exact IH |].
    now rewrite N.eqb_refl.
Qed.


(** A string with a U+0000 hides what follows it; one without is read
    whole. *)
Lemma c_string_app (a : str) :
  (forall b, c_string (a ++ b) = c_string a)
  \/ (Forall (fun c => c <> 0%N) a
      /\ forall b, c_string (a ++ b) = a ++ c_string b).
Proof.
  induction a as [| c a IH]; [right; now split |].
  simpl. destruct (N.eqb c 0) eqn:Hc; [now left |].
  apply N.eqb_neq in Hc. destruct IH as [IH | [Hf IH]].
  - left. intros b. now rewrite IH.
  - right. split; [now constructor | intros b; now rewrite IH].
Qed.

Lemma starts_with_app (prefix rest : str) :
  starts_with prefix (prefix ++ rest) = true.
Proof.
  induction prefix as [| c p IH]; [reflexivity |].
  simpl. now rewrite N.eqb_refl.
Qed.

Lemma starts_with_split (prefix s : str) :
  starts_with prefix s = true -> exists rest, s = prefix ++ rest.
Proof.
  revert s. induction prefix as [| c p IH]; intros s H.
  - now exists s.
  - destruct s as [| d s]; [discriminate |]. simpl in H.
    apply andb_prop in H as [Hc Hs]. apply N.eqb_eq in Hc. subst d.
    destruct (IH s Hs) as [rest ->]. now exists rest.
Qed.

(** No username that starts with the prefix is missed, with or without a
    U+0000 in the prefix. *)
Lemma sql_like_starts_with (prefix s : str) :
  starts_with prefix s = true -> sql_like (prefix ++ [percent]) s = true.
Proof.
  intros H. unfold sql_like.
  destruct (starts_with_split _ _ H) as [rest ->].
  destruct (c_string_app prefix) as [Hnul | [Hf Happ]].
  - rewrite !Hnul. apply like_self.
  - rewrite !Happ. change (c_string [percent]) with [percent].
    apply like_starts_with, starts_with_app.
Qed.

Lemma scan_singleton (E : engine) (r : row) : scan E [r] = [r].
Proof. apply Permutation_length_1_inv, Permutation_sym, scan_perm. Qed.

Lemma admin_db_eq :
  admin_db
  = Some [mkRow 1 (lit "admin")
            (lit "ef92b778bafe771e89245b89ecbc08a44a4e166c06659911881f383d4473e94f")
            (lit "admin@example.com") 1].
Proof. vm_compute. reflexivity. Qed.

(** C1, where the code departs from it: on the store that holds the user
    admin only, whatever the order the engine visits records in,
    find_users_by_prefix returns admin for the prefix _d and for the
    prefix AD, and admin starts with neither: LIKE reads the [_] of the
    argument as any one character and ignores the case of ASCII letters. *)
Theorem find_users_by_prefix_not_a_prefix (E : engine) :
  find_users_by_prefix E (lit "_d") admin_db
  = (Ok [Text (lit "admin")], admin_db)
  /\ starts_with (lit "_d") (lit "admin") = false
  /\ find_users_by_prefix E (lit "AD") admin_db
     = (Ok [Text (lit "admin")], admin_db)
  /\ starts_with (lit "AD") (lit "admin") = false.
Proof.
  rewrite admin_db_eq, !find_users_by_prefix_run, scan_singleton.
  repeat split; vm_compute; reflexivity.
Qed.


(** ** The store is touched by create_user only *)

(** C8: authenticate_user, get_user_permissions and find_users_by_prefix
    hand the store back as they found it, for every store and argument and
    whether they return or raise; so does setup_database once the table
    exists; create_user does change the store. *)
Theorem only_create_user_mutates (E : engine) :
  (forall username password db,
      snd (authenticate_user E username password db) = db)
  /\ (forall username db, snd (get_user_permissions E username db) = db)
  /\ (forall prefix db, snd (find_users_by_prefix E prefix db) = db)
  /\ (forall t, snd (setup_database (Some t)) = Some t)
  /\ (exists username password email is_admin db,
         snd (create_user username password email is_admin db) <> db).
Proof.
  repeat split.
  - intros username password [t |].
    + rewrite authenticate_user_run.
      now destruct (encodable password && encodable username).
    + rewrite authenticate_user_None. now destruct (encodable password).
  - intros username [t |]; [| reflexivity].
    rewrite get_user_permissions_run.
    destruct (encodable username); [| reflexivity].
    now destruct (filter _ _).
  - intros prefix [t |]; [| reflexivity].
    rewrite find_users_by_prefix_run.
    destruct (encodable prefix); [| reflexivity].
    now destruct (pattern_too_long _ && _).
  - exists (lit "admin"), (lit "password123"), (lit "admin@example.com"),
      true, (Some []).
    rewrite create_user_run.
    replace (encodable (lit "password123")) with true by reflexivity.
    replace (encodable (lit "admin")) with true by reflexivity.
    replace (encodable (lit "admin@example.com")) with true by reflexivity.
    cbn [andb has_username existsb app snd]. discriminate.
Qed.

(** ** setup_database *)

(** C9: where the users table exists, setup_database returns without
    raising and leaves every record as it is; and on any location a second
    setup_database changes nothing after the first. *)
Theorem setup_database_idempotent :
  (forall t : table, setup_database (Some t) = (Ok tt, Some t))
  /\ (forall db : database,
         exists t : table,
           setup_database db = (Ok tt, Some t)
           /\ setup_database (Some t) = (Ok tt, Some t)).
Proof.
  split.
  - reflexivity.
  - intros [t |]; eexists; split; reflexivity.
Qed.

(** ** The constraints of the table are kept *)

(** ** The constraints of the table are kept *)

Lemma fold_max_ge (l : list Z) :
  forall a x : Z, x <= a \/ In x l -> x <= fold_left Z.max l a.
Proof.
  induction l as [| y l IH]; intros a x [Hx | Hx]; simpl.
  - exact Hx.
  - destruct Hx.
  - apply IH. left. lia.
  - destruct Hx as [-> | Hx]; apply IH; [left; lia | now right].
Qed.

Lemma unused_id_fresh (t : table) : ~ In (unused_id t) (map u_id t).
Proof.
  unfold unused_id.
  set (used := fun i => negb (existsb (Z.eqb i) (map u_id t))).
  set (candidates := map Z.of_nat (seq 1 (S (length t)))).
  destruct (find used candidates) as [i |] eqn:Hf.
  - apply find_some in Hf as [_ Hi]. unfold used in Hi.
    apply negb_true_iff in Hi. intros Hin.
    assert (He : existsb (Z.eqb i) (map u_id t) = true).
    { apply existsb_exists. exists i. split; [exact Hin | apply Z.eqb_refl]. }
    congruence.
  - exfalso.
    assert (Hincl : incl candidates (map u_id t)).
    { intros x Hx. pose proof (find_none _ _ Hf x Hx) as Hu.
      unfold used in Hu. apply negb_false_iff, existsb_exists in Hu.
      destruct Hu as (y & Hy & Heq). apply Z.eqb_eq in Heq. now subst y. }
    assert (Hnd : NoDup candidates).
    { unfold candidates. apply Finite.Injective_map_NoDup.
      - intros a b Hab. now apply Nat2Z.inj.
      - apply seq_NoDup. }
    pose proof (NoDup_incl_length Hnd Hincl) as Hlen.
    unfold candidates in Hlen.
    rewrite !length_map, length_seq in Hlen. lia.
Qed.

Lemma next_id_fresh (t : table) : ~ In (next_id t) (map u_id t).
Proof.
  destruct t as [| r t]; [intros [] |].
  unfold next_id.
  destruct (fold_left Z.max (map u_id t) (u_id r) <? MAX_ROWID);
    [| apply unused_id_fresh].
  cbn [map In]. intros [H | H].
  - pose proof (fold_max_ge (map u_id t) (u_id r) (u_id r)
                            (or_introl (Z.le_refl _))).
    lia.
  - pose proof (fold_max_ge (map u_id t) (u_id r) _ (or_intror H)).
    lia.
Qed.

Lemma NoDup_snoc {A} (l : list A) (a : A) :
  NoDup l -> ~ In a l -> NoDup (l ++ [a]).
Proof.
  intros Hl Ha. apply Permutation_NoDup with (a :: l).
  - apply Permutation_cons_append.
  - now constructor.
Qed.

Lemma setup_database_wf :
  exists t, setup_database None = (Ok tt, Some t) /\ users_wf t.
Proof. exists []. repeat split; constructor. Qed.

(** create_user keeps UNIQUE(username) and PRIMARY KEY(id), however it
    ends. *)
Lemma create_user_wf (username password email : str) (is_admin : bool)
      (t : table) :
  users_wf t ->
  exists (out : outcome bool) (t' : table),
    create_user username password email is_admin (Some t) = (out, Some t')
    /\ users_wf t'
    /\ (length t <= length t' <= length t + 1)%nat
    /\ firstn (length t) t' = t.
Proof.
  intros [Hu Hi]. rewrite create_user_run.
  assert (Hsame : (length t <= length t <= length t + 1)%nat
                  /\ firstn (length t) t = t)
    by (split; [lia | apply firstn_all]).
  destruct (encodable password);
    [| eexists; exists t; split; [reflexivity | now split]].
  destruct (encodable username) eqn:He;
    [| eexists; exists t; split; [reflexivity | now split]].
  destruct (encodable email);
    [| eexists; exists t; split; [reflexivity | now split]].
  cbn [andb]. destruct (has_username username t) eqn:Hh.
  - eexists. exists t. split; [reflexivity | now split].
  - eexists. eexists. split; [reflexivity |]. split; [| split].
    + unfold users_wf. rewrite !map_app. simpl.
      rewrite (u_username_mkRow _ _ _ _ _ He). split.
      * apply NoDup_snoc; [exact Hu |]. now apply absent_has_username.
      * apply NoDup_snoc; [exact Hi | apply next_id_fresh].
    + rewrite length_app. simpl. lia.
    + rewrite firstn_app, Nat.sub_diag, firstn_all. simpl. apply app_nil_r.
Qed.

(** ** The operations at work *)

(** ** The operations at work *)

Example find_j_insertion_order :
  find_users_by_prefix insertion_order (lit "j") demo_db
  = (Ok [Text (lit "john_doe"); Text (lit "jane_smith")], demo_db).
Proof. vm_compute. reflexivity. Qed.

Example find_j_username_order :
  find_users_by_prefix username_order (lit "j") demo_db
  = (Ok [Text (lit "jane_smith"); Text (lit "john_doe")], demo_db).
Proof. vm_compute. reflexivity. Qed.

Example find_upper_j :
  find_users_by_prefix insertion_order (lit "J") demo_db
  = (Ok [Text (lit "john_doe"); Text (lit "jane_smith")], demo_db).
Proof. vm_compute. reflexivity. Qed.

Example find_percent_d :
  find_users_by_prefix insertion_order (lit "%d") demo_db
  = (Ok [Text (lit "admin"); Text (lit "john_doe")], demo_db).
Proof. vm_compute. reflexivity. Qed.

Example find_zz :
  find_users_by_prefix insertion_order (lit "zz") demo_db = (Ok [], demo_db).
Proof. vm_compute. reflexivity. Qed.

Example demo_authenticate :
  authenticate_user insertion_order (lit "admin") (lit "password123") demo_db
  = (Ok true, demo_db).
Proof. vm_compute. reflexivity. Qed.

Example demo_wrong_password :
  authenticate_user insertion_order (lit "admin") (lit "mypassword") demo_db
  = (Ok false, demo_db).
Proof. vm_compute. reflexivity. Qed.

Example demo_permissions :
  fst (get_user_permissions username_order (lit "john_doe") demo_db)
  = Ok (Int 0).
Proof. vm_compute. reflexivity. Qed.

(* admin, then U+0000: LIKE reads the pattern up to the U+0000 *)
Example find_nul :
  find_users_by_prefix insertion_order (lit "admin" ++ [0; 122; 122]%N) demo_db
  = (Ok [Text (lit "admin")], demo_db).
Proof. vm_compute. reflexivity. Qed.

Example find_too_long :
  find_users_by_prefix insertion_order (repeat 97%N (N.to_nat 50000)) demo_db
  = (Raise (OperationalError pattern_too_complex), demo_db)
  /\ find_users_by_prefix insertion_order (repeat 97%N (N.to_nat 49999)) demo_db
     = (Ok [], demo_db)
  /\ find_users_by_prefix insertion_order (repeat 97%N (N.to_nat 50000)) (Some [])
     = (Ok [], Some []).
Proof.
  split; [vm_compute; reflexivity |].
  split; vm_compute; reflexivity.
Qed.

(** At the largest rowid the id of the next record is an unused one
    within the rowids; below it, one more than the largest, also when
    that is negative. *)
Example overflow_id :
  next_id [mkRow MAX_ROWID (lit "m") [] [] 0] <> MAX_ROWID
  /\ 1 <= next_id [mkRow MAX_ROWID (lit "m") [] [] 0] <= MAX_ROWID
  /\ next_id [mkRow (-5) (lit "m") [] [] 0] = -4.
Proof.
  split; [vm_compute; discriminate |].
  split; [vm_compute; split; discriminate | vm_compute; reflexivity].
Qed.

Example sha_constants :
  hd 0%N SHA256.K = 0x428a2f98%N /\ last SHA256.K 0%N = 0xc67178f2%N
  /\ length SHA256.K = 64%nat
  /\ fst SHA256.H0
     = (0x6a09e667, 0xbb67ae85, 0x3c6ef372, 0xa54ff53a,
        0x510e527f, 0x9b05688c, 0x1f83d9ab)%N
  /\ snd SHA256.H0 = 0x5be0cd19%N.
Proof. repeat split. Qed.

Example sha_abc :
  hash_password (lit "abc")
  = lit "ba7816bf8f01cfea414140de5dae2223b00361a396177a9cb410ff61f20015ad".
Proof. vm_compute. reflexivity. Qed.

Example sha_empty :
  hash_password []
  = lit "e3b0c44298fc1c149afbf4c8996fb92427ae41e4649b934ca495991b7852b855".
Proof. vm_compute. reflexivity. Qed.

Example sha_utf8 :
  hash_password [104; 233; 108; 108; 111; 8364; 119070]%N
  = lit "3a8b0380368f379bd95ac48890e0816e5e05772509461cf91aedb57aef893921".
Proof. vm_compute. reflexivity. Qed.

Example sha_two_blocks :
  hash_password (repeat 97%N 56)
  = lit "b35439a4ac6f0948b6d6f9e3c6af0f5f590ce20f1bde7090ef7970686ec6738a".
Proof. vm_compute. reflexivity. Qed.

Example sha_three_blocks :
  hash_password (repeat 97%N 120)
  = lit "2f3d335432c70b580af0e8e1b3674a7c020d683aa5f73aaaedfdc55af904c21c".
Proof. vm_compute. reflexivity. Qed.

(** ** The theorems at concrete inputs *)

(** ** The theorems at concrete inputs *)

Lemma demo_table_eq :
  demo_table
  = [mkRow 1 (lit "admin")
       (lit "ef92b778bafe771e89245b89ecbc08a44a4e166c06659911881f383d4473e94f")
       (lit "admin@example.com") 1;
     mkRow 2 (lit "john_doe")
       (lit "89e01536ac207279409d4de1e5253e01f4a1769e696db0d6062ca9b8f56767c8")
       (lit "john@example.com") 0;
     mkRow 3 (lit "jane_smith")
       (lit "3c2122a1d02657a5aa61ba86504a111b04c425df3471f3b8d48d76e7557f3a7e")
       (lit "jane@example.com") 0].
Proof. vm_compute. reflexivity. Qed.

Lemma demo_usernames :
  map u_username demo_table = [lit "admin"; lit "john_doe"; lit "jane_smith"].
Proof. rewrite demo_table_eq. reflexivity. Qed.

Lemma demo_table_unique : NoDup (map u_username demo_table).
Proof.
  rewrite demo_usernames.
  repeat (apply NoDup_cons; [vm_compute; intuition discriminate |]).
  apply NoDup_nil.
Qed.

Lemma demo_db_eq : demo_db = Some demo_table.
Proof. vm_compute. reflexivity. Qed.



Lemma create_user_then_authenticate_witness :
  create_user (lit "admin") (lit "password123") (lit "admin@example.com") true
              (Some [])
  = (Ok true, admin_db)
  /\ authenticate_user insertion_order (lit "admin") (lit "password123")
                       admin_db
     = (Ok true, admin_db).
Proof.
  assert (H : create_user (lit "admin") (lit "password123")
                          (lit "admin@example.com") true (Some [])
              = (Ok true, admin_db)) by (vm_compute; reflexivity).
  split; [exact H |].
  exact (create_user_then_authenticate insertion_order _ _ _ _ _ _ H).
Defined.



Lemma authenticate_user_injection_witness :
  ~ In (lit "admin' OR '1'='1") (map u_username demo_table)
  /\ authenticate_user insertion_order (lit "admin' OR '1'='1")
                       (lit "anything") (Some demo_table)
     = (Ok false, Some demo_table).
Proof.
  assert (H : ~ In (lit "admin' OR '1'='1") (map u_username demo_table)).
  { rewrite demo_usernames. vm_compute. intuition discriminate. }
  split; [exact H |].
  exact (proj1 (authenticate_user_injection insertion_order demo_table H)).
Defined.

Lemma create_user_stores_hash_witness :
  create_user (lit "admin") (lit "password123") (lit "admin@example.com") true
              (Some [])
  = (Ok true, admin_db)
  /\ exists (t : table) (r : row),
       Some [] = Some t /\ admin_db = Some (t ++ [r])
       /\ u_username r = lit "admin" /\ u_email r = lit "admin@example.com"
       /\ u_is_admin r = Z.b2z true
       /\ u_password r
          = lit "ef92b778bafe771e89245b89ecbc08a44a4e166c06659911881f383d4473e94f"
       /\ u_password r <> lit "password123"
       /\ length (u_password r) = 64%nat
       /\ forallb is_lower_hex (u_password r) = true.
Proof.
  assert (H : create_user (lit "admin") (lit "password123")
                          (lit "admin@example.com") true (Some [])
              = (Ok true, admin_db)) by (vm_compute; reflexivity).
  assert (Hd : SHA256.hex (SHA256.digest (utf8 (lit "password123")))
               = lit "ef92b778bafe771e89245b89ecbc08a44a4e166c06659911881f383d4473e94f")
    by (vm_compute; reflexivity).
  split; [exact H |].
  destruct (create_user_stores_hash _ _ _ _ _ _ H)
    as (t & r & Ht & Hdb & Hu & He & Ha & Hp & _ & Hl & Hf & _).
  exists t, r. rewrite Hd in Hp.
  assert (Hne : u_password r <> lit "password123").
  { rewrite Hp. vm_compute. discriminate. }
  now repeat split.
Defined.

Lemma create_user_integrity_error_returns_false_witness :
  raise (A := unit) (IntegrityError (NOT_NULL (TextCol Email))) demo_db
  = (Raise (IntegrityError (NOT_NULL (TextCol Email))), demo_db)
  /\ create_user_from (raise (IntegrityError (NOT_NULL (TextCol Email))))
                      demo_db
     = (Ok false, demo_db).
Proof.
  assert (H : raise (A := unit) (IntegrityError (NOT_NULL (TextCol Email)))
                    demo_db
              = (Raise (IntegrityError (NOT_NULL (TextCol Email))), demo_db))
    by reflexivity.
  split; [exact H |].
  exact (proj1 (create_user_integrity_error_returns_false _ _ _ _ H)).
Defined.



(** * Further properties of the operations *)

(** ** authenticate_user *)

(** X1: on a table that respects UNIQUE(username), authenticate_user for
    the username of a stored record raises UnicodeEncodeError when the
    password cannot be encoded, and else answers whether the hexadecimal
    SHA-256 digest of the password (the function that gives the digests of
    FIPS 180) equals the password column of that record: a password with
    another digest is refused. The store is left as it is. *)
Theorem authenticate_user_checks_stored_hash
        (E : engine) (t : table) (r : row) (password : str) :
  NoDup (map u_username t) ->
  In r t ->
  authenticate_user E (u_username r) password (Some t)
  = (if encodable password
     then Ok (str_eqb (u_password r)
                      (SHA256.hex (SHA256.digest (utf8 password))))
     else Raise UnicodeEncodeError,
     Some t)
  /\ sha256_known_answers.
Proof.
  intros Hnd Hin. split; [| exact sha256_known_answers_hold].
  rewrite authenticate_user_run, u_username_encodable, andb_true_r.
  destruct (encodable password); [| reflexivity].
  rewrite filter_scan_length, filter_credentials.
  rewrite (unique_named t r Hnd Hin). simpl.
  change (SHA256.hex (SHA256.digest (utf8 password)))
    with (hash_password password).
  now destruct (str_eqb (u_password r) (hash_password password)).
Qed.

Lemma authenticate_user_checks_stored_hash_witness :
  NoDup (map u_username demo_table)
  /\ In (mkRow 2 (lit "john_doe")
               (lit "89e01536ac207279409d4de1e5253e01f4a1769e696db0d6062ca9b8f56767c8")
               (lit "john@example.com") 0) demo_table
  /\ authenticate_user username_order (lit "john_doe") (lit "mypassword")
                       (Some demo_table)
     = (Ok true, Some demo_table)
  /\ authenticate_user username_order (lit "john_doe") (lit "password123")
                       (Some demo_table)
     = (Ok false, Some demo_table).
Proof.
  assert (Hin : In (mkRow 2 (lit "john_doe")
                      (lit "89e01536ac207279409d4de1e5253e01f4a1769e696db0d6062ca9b8f56767c8")
                      (lit "john@example.com") 0) demo_table).
  { rewrite demo_table_eq. right. left. reflexivity. }
  split; [exact demo_table_unique |]. split; [exact Hin |].
  split.
  - refine (eq_trans (proj1 (authenticate_user_checks_stored_hash
                               username_order demo_table _ (lit "mypassword")
                               demo_table_unique Hin)) _).
    vm_compute. reflexivity.
  - refine (eq_trans (proj1 (authenticate_user_checks_stored_hash
                               username_order demo_table _ (lit "password123")
                               demo_table_unique Hin)) _).
    vm_compute. reflexivity.
Defined.

(** X2: the SELECT statements carry no ORDER BY, yet the answer of
    authenticate_user is the same whatever the order the engine visits the
    records in, and the answers of find_users_by_prefix for two orders hold
    the same usernames, each as often. *)
Theorem answers_independent_of_scan_order
        (E1 E2 : engine) (db : database) :
  (forall username password,
      authenticate_user E1 username password db
      = authenticate_user E2 username password db)
  /\ (forall prefix,
         match find_users_by_prefix E1 prefix db,
               find_users_by_prefix E2 prefix db with
         | (Ok found1, db1), (Ok found2, db2) =>
           Permutation found1 found2 /\ db1 = db2
         | (Raise e1, db1), (Raise e2, db2) => e1 = e2 /\ db1 = db2
         | _, _ => False
         end).
Proof.
  destruct db as [t |].
  - split.
    + intros username password.
      now rewrite !authenticate_user_run, !filter_scan_length.
    + intros prefix. rewrite !find_users_by_prefix_run.
      destruct (encodable prefix); [| now split].
      destruct (pattern_too_long _ && _); [now split |].
      split; [| reflexivity].
      apply Permutation_map.
      eapply Permutation_trans; [apply filter_permutation, scan_perm |].
      apply Permutation_sym, filter_permutation, scan_perm.
  - split.
    + intros username password. now rewrite !authenticate_user_None.
    + intros prefix. now split.
Qed.

(** ** get_user_permissions *)

(** X3: on a table that respects UNIQUE(username), get_user_permissions
    for the username of a stored record returns the is_admin column of that
    very record, whatever the order of the scan. *)
Theorem get_user_permissions_returns_stored_flag
        (E : engine) (t : table) (r : row) :
  NoDup (map u_username t) ->
  In r t ->
  get_user_permissions E (u_username r) (Some t)
  = (Ok (Int (u_is_admin r)), Some t).
Proof.
  intros Hnd Hin. apply get_user_permissions_flag.
  now apply unique_named.
Qed.

Lemma get_user_permissions_returns_stored_flag_witness :
  NoDup (map u_username demo_table)
  /\ In (mkRow 1 (lit "admin")
               (lit "ef92b778bafe771e89245b89ecbc08a44a4e166c06659911881f383d4473e94f")
               (lit "admin@example.com") 1) demo_table
  /\ get_user_permissions username_order (lit "admin") (Some demo_table)
     = (Ok (Int 1), Some demo_table).
Proof.
  assert (Hin : In (mkRow 1 (lit "admin")
                      (lit "ef92b778bafe771e89245b89ecbc08a44a4e166c06659911881f383d4473e94f")
                      (lit "admin@example.com") 1) demo_table).
  { rewrite demo_table_eq. left. reflexivity. }
  split; [exact demo_table_unique |]. split; [exact Hin |].
  exact (get_user_permissions_returns_stored_flag
           username_order demo_table _ demo_table_unique Hin).
Defined.


(** ** create_user *)


(** X6: create_user keeps the constraints of the table: if usernames and
    ids are without repetition before the call, they are after it,
    whatever the arguments and however the call ends, by a result or by an
    exception. *)
Theorem create_user_keeps_constraints
        (username password email : str) (is_admin : bool) (t : table) :
  users_wf t ->
  exists (out : outcome bool) (t' : table),
    create_user username password email is_admin (Some t) = (out, Some t')
    /\ NoDup (map u_username t') /\ NoDup (map u_id t').
Proof.
  intros Hwf.
  destruct (create_user_wf username password email is_admin t Hwf)
    as (out & t' & Hc & [Hu Hi] & _).
  now exists out, t'.
Qed.

Lemma demo_table_wf : users_wf demo_table.
Proof.
  split; [exact demo_table_unique |].
  rewrite demo_table_eq. simpl.
  repeat (apply NoDup_cons; [simpl; intuition discriminate |]).
  apply NoDup_nil.
Qed.

Lemma create_user_keeps_constraints_witness :
  users_wf demo_table
  /\ exists (out : outcome bool) (t' : table),
       create_user (lit "zed") (lit "pw") (lit "zed@example.com") false
                   (Some demo_table)
       = (out, Some t')
       /\ NoDup (map u_username t') /\ NoDup (map u_id t').
Proof.
  split; [exact demo_table_wf |].
  exact (create_user_keeps_constraints (lit "zed") (lit "pw")
           (lit "zed@example.com") false demo_table demo_table_wf).
Defined.

Lemma create_users_wf (calls : list (str * str * str * bool)) :
  forall t : table,
    users_wf t ->
    exists (out : outcome unit) (t' : table),
      create_users calls (Some t) = (out, Some t')
      /\ users_wf t'
      /\ (length t <= length t' <= length t + length calls)%nat
      /\ firstn (length t) t' = t.
Proof.
  induction calls as [| [[[u p] e] a] calls IH]; intros t Hwf.
  - exists (Ok tt), t. split; [reflexivity |]. split; [exact Hwf |].
    split; [simpl; lia | apply firstn_all].
  - destruct (create_user_wf u p e a t Hwf)
      as (o & t1 & Hc & Hwf1 & Hlen1 & Hpre1).
    cbn [create_users]. unfold bind. rewrite Hc.
    destruct o as [b | ex].
    + destruct (IH t1 Hwf1) as (out & t2 & Hcs & Hwf2 & Hlen2 & Hpre2).
      exists out, t2. split; [exact Hcs |].
      split; [exact Hwf2 |]. split; [simpl; lia |].
      transitivity (firstn (length t) (firstn (length t1) t2)).
      * rewrite firstn_firstn. f_equal. lia.
      * rewrite Hpre2. exact Hpre1.
    + exists (Raise ex), t1. split; [reflexivity |].
      split; [exact Hwf1 |]. split; [simpl; lia | exact Hpre1].
Qed.

(** X7: opening the store on a location that is fresh or respects the
    constraints, and then running any create_user calls up to the first
    that raises, leaves a table that respects UNIQUE(username) and
    PRIMARY KEY(id), however the run ends; the records that were there are
    still there, unchanged and first, and at most one record a call is
    added. *)
Theorem init_then_create_users_wf
        (db : database) (calls : list (str * str * str * bool)) :
  location_wf db ->
  exists (out : outcome unit) (t : table),
    (__init__ ;; create_users calls) db = (out, Some t)
    /\ users_wf t
    /\ (length t <= length (match db with Some t0 => t0 | None => [] end)
                    + length calls)%nat
    /\ firstn (length (match db with Some t0 => t0 | None => [] end)) t
       = match db with Some t0 => t0 | None => [] end.
Proof.
  intros Hloc.
  assert (H0 : forall t0, users_wf t0 -> __init__ db = (Ok tt, Some t0) ->
               exists (out : outcome unit) (t : table),
                 (__init__ ;; create_users calls) db = (out, Some t)
                 /\ users_wf t
                 /\ (length t <= length t0 + length calls)%nat
                 /\ firstn (length t0) t = t0).
  { intros t0 Hwf0 Hinit.
    destruct (create_users_wf calls t0 Hwf0)
      as (out & t & Hcs & Hwf & Hlen & Hpre).
    exists out, t. split.
    - unfold bind. now rewrite Hinit.
    - split; [exact Hwf |]. split; [lia | exact Hpre]. }
  destruct db as [t0 |].
  - now apply H0.
  - apply H0; [split; constructor | reflexivity].
Qed.

Lemma init_then_create_users_wf_witness :
  location_wf None
  /\ exists (out : outcome unit) (t : table),
       (__init__ ;;
        create_users [(lit "admin", lit "a", lit "a@example.com", true);
                      (lit "admin", lit "b", lit "b@example.com", false)])
         None
       = (out, Some t)
       /\ users_wf t
       /\ (length t <= length (@nil row) + 2)%nat
       /\ firstn (length (@nil row)) t = [].
Proof.
  split; [exact I |].
  exact (init_then_create_users_wf None
           [(lit "admin", lit "a", lit "a@example.com", true);
            (lit "admin", lit "b", lit "b@example.com", false)] I).
Defined.

(** X8: the handler of create_user catches IntegrityError only: any other
    exception of the insert statement reaches the caller, with the store as
    the statement left it. So on a location without the users table
    create_user creates nothing and raises: the UnicodeEncodeError of the
    password that cannot be encoded, raised before the statement, or else
    the OperationalError of sqlite3 for the missing table. *)
Theorem create_user_propagates_other_errors
        (insert : M unit) (e : exn) (db db' : database) :
  insert db = (Raise e, db') ->
  is_IntegrityError e = false ->
  create_user_from insert db = (Raise e, db')
  /\ forall (username password email : str) (is_admin : bool),
       create_user username password email is_admin None
       = (Raise (if encodable password
                 then OperationalError no_such_table
                 else UnicodeEncodeError),
          None).
Proof.
  intros Hins He. split.
  - unfold create_user_from, try_except, bind. now rewrite Hins, He.
  - intros. rewrite create_user_run. now destruct (encodable password).
Qed.

Lemma create_user_propagates_other_errors_witness :
  execute_insert (lit "admin") (lit "h") (lit "a@example.com") 1 None
  = (Raise (OperationalError no_such_table), None)
  /\ is_IntegrityError (OperationalError no_such_table) = false
  /\ create_user_from
       (execute_insert (lit "admin") (lit "h") (lit "a@example.com") 1) None
     = (Raise (OperationalError no_such_table), None).
Proof.
  assert (H : execute_insert (lit "admin") (lit "h") (lit "a@example.com") 1
                             None
              = (Raise (OperationalError no_such_table), None))
    by reflexivity.
  split; [exact H |]. split; [reflexivity |].
  exact (proj1 (create_user_propagates_other_errors _ _ _ _ H eq_refl)).
Defined.

(** X9: an account stays as it was created. After create_user has
    returned true, and after any further create_user calls, however they
    end (also calls that give the same username with another password or
    flag, and calls that raise), the password of the creation still
    authenticates and get_user_permissions still returns the flag of the
    creation. *)
Theorem created_account_persists
        (E : engine) (username password email : str) (is_admin : bool)
        (db db1 : database) :
  create_user username password email is_admin db = (Ok true, db1) ->
  forall (later : list (str * str * str * bool))
         (out : outcome unit) (db2 : database),
    create_users later db1 = (out, db2) ->
    authenticate_user E username password db2 = (Ok true, db2)
    /\ get_user_permissions E username db2
       = (Ok (Int (Z.b2z is_admin)), db2).
Proof.
  intros H later out db2 Hl.
  apply create_user_success in H as (t & -> & Habs & Hu & Hp & He & ->).
  pose proof (created_row_named username (hash_password password) email
                                (Z.b2z is_admin) t Hu Habs) as H1.
  destruct (create_users_keep_named username _ later _ _ _ H1 Hl)
    as (t2 & -> & H2).
  split.
  - apply (authenticate_named_one E username password t2 _ H2);
      [apply u_password_mkRow, hash_password_encodable | exact Hp].
  - pose proof (get_user_permissions_flag E t2 _
                  (eq_ind_r (fun u => filter (named u) t2 = _) H2
                            (u_username_mkRow _ _ _ _ _ Hu))) as Hg.
    now rewrite (u_username_mkRow _ _ _ _ _ Hu) in Hg.
Qed.

Lemma created_account_persists_witness :
  create_user (lit "admin") (lit "password123") (lit "admin@example.com") true
              (Some [])
  = (Ok true, admin_db)
  /\ forall (later : list (str * str * str * bool))
            (out : outcome unit) (db2 : database),
       create_users later admin_db = (out, db2) ->
       authenticate_user insertion_order (lit "admin") (lit "password123") db2
       = (Ok true, db2)
       /\ get_user_permissions insertion_order (lit "admin") db2
          = (Ok (Int (Z.b2z true)), db2).
Proof.
  assert (H : create_user (lit "admin") (lit "password123")
                          (lit "admin@example.com") true (Some [])
              = (Ok true, admin_db)) by (vm_compute; reflexivity).
  split; [exact H |].
  exact (created_account_persists insertion_order _ _ _ _ _ _ H).
Defined.

(** ** find_users_by_prefix *)

(** ** find_users_by_prefix *)

Lemma like_percent_mono (p p2 : str) :
  (forall s, like p s = true -> like p2 s = true) ->
  forall s, like (percent :: p) s = true -> like (percent :: p2) s = true.
Proof.
  intros Hp s. induction s as [| c s IH].
  - rewrite (like_percent_unfold p []), (like_percent_unfold p2 []).
    rewrite !orb_false_r. apply Hp.
  - rewrite (like_percent_unfold p (c :: s)), (like_percent_unfold p2 (c :: s)).
    intros H. apply orb_prop in H as [H | H].
    + now rewrite (Hp _ H).
    + rewrite (IH H). apply orb_true_r.
Qed.

(** What matches a pattern that begins with q matches q%. *)
Lemma like_app_percent (q rest : str) :
  forall s, like (q ++ rest) s = true -> like (q ++ [percent]) s = true.
Proof.
  induction q as [| c q IH]; intros s H.
  - apply like_percent_all.
  - destruct (N.eq_dec c percent) as [-> | Hc].
    + exact (like_percent_mono _ _ IH s H).
    + apply N.eqb_neq in Hc. simpl in *. rewrite Hc in *.
      destruct (N.eqb c underscore).
      * destruct s as [| d s]; [discriminate | now apply IH].
      * destruct s as [| d s]; [discriminate |].
        apply andb_prop in H as [H1 H2]. rewrite H1. now apply IH.
Qed.

Lemma utf8_app (a b : str) : utf8 (a ++ b) = utf8 a ++ utf8 b.
Proof. apply flat_map_app. Qed.

(** A pattern is no longer than one that continues it. *)
Lemma pattern_too_long_narrows (p q : str) :
  pattern_too_long ((p ++ q) ++ [percent]) = false ->
  pattern_too_long (p ++ [percent]) = false.
Proof.
  unfold pattern_too_long. rewrite !N.ltb_ge, !utf8_app, !length_app. lia.
Qed.

Lemma starts_with_encodable (prefix s : str) :
  starts_with prefix s = true -> encodable s = true ->
  encodable prefix = true.
Proof.
  intros Hs He. apply starts_with_split in Hs as [rest ->].
  rewrite encodable_app in He. now apply andb_prop in He.
Qed.

(** What the pattern of p followed by q matches, the pattern of p matches,
    also when p or q holds U+0000. *)
Lemma sql_like_narrows (p q s : str) :
  sql_like ((p ++ q) ++ [percent]) s = true ->
  sql_like (p ++ [percent]) s = true.
Proof.
  unfold sql_like. rewrite <- app_assoc.
  destruct (c_string_app p) as [Hn | [_ Hn]].
  - now rewrite !Hn.
  - rewrite !Hn. apply like_app_percent.
Qed.

(** X10: a username that create_user has stored is found by every prefix
    it starts with whose pattern prefix% is within the 50000 octets that
    SQLite accepts, the whole username and the empty prefix among them,
    also when the prefix holds [%], [_] or U+0000. *)
Theorem created_user_found_by_its_prefixes
        (E : engine) (username password email prefix : str) (is_admin : bool)
        (db db1 : database) :
  create_user username password email is_admin db = (Ok true, db1) ->
  starts_with prefix username = true ->
  pattern_too_long (prefix ++ [percent]) = false ->
  exists found : list value,
    find_users_by_prefix E prefix db1 = (Ok found, db1)
    /\ In (Text username) found.
Proof.
  intros H Hs Hlen.
  apply create_user_success in H as (t & -> & _ & Hu & _ & _ & ->).
  rewrite find_users_by_prefix_run, (starts_with_encodable _ _ Hs Hu), Hlen.
  eexists. split; [reflexivity |].
  set (r := mkRow _ _ _ _ _).
  assert (Hr : u_username r = username) by now apply u_username_mkRow.
  rewrite <- Hr.
  apply (in_map (fun r => Text (u_username r))), filter_In. split.
  - apply scan_In, in_or_app. right. now left.
  - apply sql_like_starts_with. now rewrite Hr.
Qed.

Lemma created_user_found_by_its_prefixes_witness :
  create_user (lit "admin") (lit "password123") (lit "admin@example.com") true
              (Some [])
  = (Ok true, admin_db)
  /\ starts_with (lit "adm") (lit "admin") = true
  /\ pattern_too_long (lit "adm" ++ [percent]) = false
  /\ exists found : list value,
       find_users_by_prefix username_order (lit "adm") admin_db
       = (Ok found, admin_db)
       /\ In (Text (lit "admin")) found.
Proof.
  assert (H : create_user (lit "admin") (lit "password123")
                          (lit "admin@example.com") true (Some [])
              = (Ok true, admin_db)) by (vm_compute; reflexivity).
  assert (Hs : starts_with (lit "adm") (lit "admin") = true) by reflexivity.
  assert (Hl : pattern_too_long (lit "adm" ++ [percent]) = false)
    by reflexivity.
  split; [exact H |]. split; [exact Hs |]. split; [exact Hl |].
  exact (created_user_found_by_its_prefixes username_order _ _ _ _ _ _ _
           H Hs Hl).
Defined.




(** X13: a longer prefix narrows the answer: when find_users_by_prefix
    returns a list for the prefix p followed by q, it returns a list for
    the prefix p too, and every username of the first list is in the
    second. *)
Theorem find_users_by_prefix_narrows
        (E : engine) (p q : str) (t : table) (found_pq : list value) :
  find_users_by_prefix E (p ++ q) (Some t) = (Ok found_pq, Some t) ->
  exists found_p : list value,
    find_users_by_prefix E p (Some t) = (Ok found_p, Some t)
    /\ incl found_pq found_p.
Proof.
  rewrite !find_users_by_prefix_run, encodable_app.
  destruct (encodable p); [| discriminate].
  destruct (encodable q); [| discriminate]. cbn [andb].
  destruct (pattern_too_long ((p ++ q) ++ [percent])
            && match t with [] => false | _ :: _ => true end) eqn:Hraise;
    [discriminate |].
  intros H. injection H as <-.
  assert (Hp : pattern_too_long (p ++ [percent])
               && match t with [] => false | _ :: _ => true end = false).
  { apply andb_false_iff in Hraise as [Hlen | Ht].
    - now rewrite (pattern_too_long_narrows p q Hlen).
    - rewrite Ht. apply andb_false_r. }
  rewrite Hp. eexists. split; [reflexivity |].
  intros v Hv. apply in_map_iff in Hv as (r & <- & Hr).
  apply filter_In in Hr as [Hr Hl].
  apply (in_map (fun r => Text (u_username r))), filter_In.
  split; [exact Hr | exact (sql_like_narrows _ _ _ Hl)].
Qed.

Lemma find_users_by_prefix_narrows_witness :
  find_users_by_prefix insertion_order (lit "j" ++ lit "o") (Some demo_table)
  = (Ok [Text (lit "john_doe")], Some demo_table)
  /\ exists found_p : list value,
       find_users_by_prefix insertion_order (lit "j") (Some demo_table)
       = (Ok found_p, Some demo_table)
       /\ incl [Text (lit "john_doe")] found_p.
Proof.
  assert (H : find_users_by_prefix insertion_order (lit "j" ++ lit "o")
                                   (Some demo_table)
              = (Ok [Text (lit "john_doe")], Some demo_table))
    by (vm_compute; reflexivity).
  split; [exact H |].
  exact (find_users_by_prefix_narrows insertion_order (lit "j") (lit "o")
           demo_table _ H).
Defined.

(** ** The empty store *)


(** ** hash_password *)

(** ** hash_password *)

Lemma lor_lt_256 (a b : N) : (a < 256 -> b < 256 -> N.lor a b < 256)%N.
Proof.
  intros Ha Hb.
  destruct (N.eq_dec a 0) as [-> | Ha0]; [now rewrite N.lor_0_l |].
  destruct (N.eq_dec b 0) as [-> | Hb0]; [now rewrite N.lor_0_r |].
  change 256%N with (2 ^ 8)%N in *.
  apply N.log2_lt_pow2.
  - apply N.neq_0_lt_0. intros H0. apply N.lor_eq_0_iff in H0. tauto.
  - rewrite N.log2_lor. apply N.max_lub_lt; apply N.log2_lt_pow2; lia.
Qed.

Lemma land_mask_lt_256 (x : N) (n : N) :
  (n <= 8 -> N.land x (N.ones n) < 256)%N.
Proof.
  intros Hn. rewrite N.land_ones.
  apply N.lt_le_trans with (2 ^ n)%N.
  - apply N.mod_lt, N.pow_nonzero. discriminate.
  - change 256%N with (2 ^ 8)%N. apply N.pow_le_mono_r; [discriminate | exact Hn].
Qed.

Lemma utf8_char_octets (c : N) :
  Forall (fun b => (b < 256)%N) (utf8_char c)
  /\ (1 <= length (utf8_char c) <= 4)%nat.
Proof.
  unfold utf8_char.
  change 0x3F%N with (N.ones 6). change 0x07%N with (N.ones 3).
  destruct (c <? 128)%N eqn:H1.
  { apply N.ltb_lt in H1. split; [| simpl; lia].
    repeat constructor. lia. }
  destruct (c <? 2048)%N eqn:H2.
  { apply N.ltb_lt in H2. split; [| simpl; lia].
    repeat constructor; apply lor_lt_256; try lia.
    - rewrite N.shiftr_div_pow2. apply N.Div0.div_lt_upper_bound.
      change (2 ^ 6 * 256)%N with 16384%N. lia.
    - apply land_mask_lt_256. lia. }
  destruct (c <? 65536)%N eqn:H3.
  { apply N.ltb_lt in H3. split; [| simpl; lia].
    repeat constructor; apply lor_lt_256; try lia;
      try (apply land_mask_lt_256; lia).
    rewrite N.shiftr_div_pow2. apply N.Div0.div_lt_upper_bound.
    change (2 ^ 12 * 256)%N with 1048576%N. lia. }
  split; [| simpl; lia].
  repeat constructor; apply lor_lt_256; try lia;
    apply land_mask_lt_256; lia.
Qed.

(** X15: hash_password raises UnicodeEncodeError exactly when the
    password holds a code point that UTF-8 cannot encode (a surrogate,
    U+D800 to U+DFFF), and leaves the store alone. Else it returns the
    hexadecimal SHA-256 digest of the UTF-8 octets of the password: what
    it hands to SHA-256 is a string of octets, one to four for each
    character, a password of ASCII characters is hashed as it stands, and
    the result is 64 characters among 0-9 a-f, for the empty password too.
    The digest function gives the published digests of FIPS 180. *)
Theorem hash_password_octets_and_digits (password : str) (db : database) :
  self_hash_password password db
  = (if encodable password
     then Ok (SHA256.hex (SHA256.digest (utf8 password)))
     else Raise UnicodeEncodeError,
     db)
  /\ Forall (fun b => (b < 256)%N) (utf8 password)
  /\ (length password <= length (utf8 password) <= 4 * length password)%nat
  /\ (forallb (fun c => (c <? 128)%N) password = true ->
      utf8 password = password /\ encodable password = true)
  /\ length (SHA256.hex (SHA256.digest (utf8 password))) = 64%nat
  /\ forallb is_lower_hex (SHA256.hex (SHA256.digest (utf8 password))) = true
  /\ sha256_known_answers.
Proof.
  split; [| split; [| split; [| split; [| split; [| split]]]]].
  - rewrite self_hash_password_run. now destruct (encodable password).
  - unfold utf8. induction password as [| c s IH]; [constructor |].
    simpl. apply Forall_app. split; [apply utf8_char_octets | exact IH].
  - unfold utf8. induction password as [| c s IH]; [simpl; lia |].
    simpl. rewrite length_app.
    pose proof (proj2 (utf8_char_octets c)). lia.
  - intros Hascii. unfold utf8, encodable.
    induction password as [| c s IH]; [now split |].
    simpl in *. apply andb_prop in Hascii as [Hc Hs].
    destruct (IH Hs) as [IH1 IH2]. rewrite IH1, IH2. split.
    + unfold utf8_char.
      change (c <? 128)%N with (c <? 0x80)%N in Hc. now rewrite Hc.
    + apply N.ltb_lt in Hc. unfold is_scalar.
      replace (c <? 0xD800)%N with true; [reflexivity |].
      symmetry. apply N.ltb_lt. lia.
  - apply (hash_password_shape password).
  - apply (hash_password_shape password).
  - exact sha256_known_answers_hold.
Qed.

(** ** Transactions, commit and close *)

Section Simulation.

Lemma simulates_ret {A} (a : A) : Tx.simulates (Tx.ret a) (ret a).
Proof. intros c. now split. Qed.

Lemma simulates_raise {A} (e : exn) :
  Tx.simulates (Tx.raise (A := A) e) (raise e).
Proof. intros c. now split. Qed.

Lemma simulates_bind {A B} (mt : Tx.T A) (m : M A)
      (kt : A -> Tx.T B) (k : A -> M B) :
  Tx.simulates mt m -> (forall a, Tx.simulates (kt a) (k a)) ->
  Tx.simulates (Tx.bind mt kt) (bind m k).
Proof.
  intros Hm Hk c. unfold Tx.bind, bind.
  destruct (Hm c) as [H1 H2].
  destruct (mt c) as [[a | e] c'], (m (Tx.view c)) as [[a' | e'] db'];
    simpl in *; try discriminate; subst.
  - injection H1 as <-. apply Hk.
  - injection H1 as <-. now split.
Qed.

Lemma simulates_try_except {A} (bt ht : Tx.T A) (b h : M A)
      (handles : exn -> bool) :
  Tx.simulates bt b -> Tx.simulates ht h ->
  Tx.simulates (Tx.try_except bt handles ht) (try_except b handles h).
Proof.
  intros Hb Hh c. unfold Tx.try_except, try_except.
  destruct (Hb c) as [H1 H2].
  destruct (bt c) as [[a | e] c'], (b (Tx.view c)) as [[a' | e'] db'];
    simpl in *; try discriminate; subst.
  - now split.
  - injection H1 as <-. destruct (handles e); [apply Hh | now split].
Qed.

Lemma simulates_statement {A} (m : M A) : Tx.simulates (Tx.statement m) m.
Proof.
  intros [d [p |]]; unfold Tx.statement, Tx.view; simpl;
    now destruct (m _).
Qed.

Lemma simulates_modifying_statement {A} (m : M A) :
  Tx.simulates (Tx.modifying_statement m) m.
Proof.
  intros [d [p |]];
    unfold Tx.modifying_statement, Tx.bind, Tx.begin_transaction,
      Tx.statement, Tx.view; simpl.
  - destruct p; simpl; now destruct (m _).
  - destruct d; simpl; now destruct (m _).
Qed.

Lemma simulates_self_hash_password (password : str) :
  Tx.simulates (Tx.self_hash_password password) (self_hash_password password).
Proof.
  intros c. rewrite self_hash_password_run. unfold Tx.self_hash_password.
  now destruct (encodable password).
Qed.

Lemma simulates_commit : Tx.simulates Tx.commit commit.
Proof. intros [d [p |]]; now split. Qed.

Lemma simulates_mapM_item0 (l : list (list value)) :
  Tx.simulates (Tx.mapM Tx.item0 l) (mapM item0 l).
Proof.
  induction l as [| t l IH]; [apply simulates_ret |].
  cbn [Tx.mapM mapM]. apply simulates_bind.
  - destruct t; [apply simulates_raise | apply simulates_ret].
  - intros b. apply simulates_bind; [exact IH |].
    intros bs. apply simulates_ret.
Qed.

Variable E : engine.

Lemma simulates_setup_database : Tx.simulates Tx.setup_database setup_database.
Proof.
  apply simulates_bind; [apply simulates_statement |].
  intros _. apply simulates_commit.
Qed.

Lemma simulates_authenticate_user (username password : str) :
  Tx.simulates (Tx.authenticate_user E username password)
               (authenticate_user E username password).
Proof.
  apply simulates_bind; [apply simulates_self_hash_password |].
  intros hashed_password.
  apply simulates_bind; [apply simulates_statement |].
  intros cur. apply simulates_ret.
Qed.

Lemma simulates_get_user_permissions (username : str) :
  Tx.simulates (Tx.get_user_permissions E username)
               (get_user_permissions E username).
Proof.
  apply simulates_bind; [apply simulates_statement |].
  intros cur. destruct (fetchone cur) as [[| v t] |];
    [apply simulates_raise | apply simulates_ret | apply simulates_raise].
Qed.

Lemma simulates_find_users_by_prefix (prefix : str) :
  Tx.simulates (Tx.find_users_by_prefix E prefix)
               (find_users_by_prefix E prefix).
Proof.
  apply simulates_bind; [apply simulates_statement |].
  intros cur. apply simulates_mapM_item0.
Qed.

Lemma simulates_create_user (username password email : str)
      (is_admin : bool) :
  Tx.simulates (Tx.create_user username password email is_admin)
               (create_user username password email is_admin).
Proof.
  apply simulates_bind; [apply simulates_self_hash_password |].
  intros hashed_password.
  apply simulates_try_except; [| apply simulates_ret].
  apply simulates_bind; [apply simulates_modifying_statement |].
  intros _. apply simulates_bind; [apply simulates_commit |].
  intros _. apply simulates_ret.
Qed.

Lemma simulates_run_call (c : call) :
  Tx.simulates (Tx.run_call E c) (run_call E c).
Proof.
  destruct c; apply simulates_bind;
    try (intros; apply simulates_ret).
  - apply simulates_create_user.
  - apply simulates_authenticate_user.
  - apply simulates_get_user_permissions.
  - apply simulates_find_users_by_prefix.
Qed.

Lemma simulates_run_calls (calls : list call) :
  Tx.simulates (Tx.run_calls E calls) (run_calls E calls).
Proof.
  induction calls as [| c calls IH]; [apply simulates_ret |].
  apply simulates_bind; [apply simulates_run_call | intros _; exact IH].
Qed.

End Simulation.

Lemma execute_read_only (E : engine) (q : select) (params : list str)
      (db : database) :
  snd (execute E q params db) = db.
Proof.
  unfold execute. destruct db as [t |]; [| reflexivity].
  destruct (negb (Nat.eqb _ _)); [reflexivity |].
  destruct (negb (forallb _ _)); [reflexivity |].
  now destruct (existsb _ _).
Qed.

Lemma statement_read_only {A} (m : M A) (c : Tx.connection) :
  (forall db, snd (m db) = db) -> snd (Tx.statement m c) = c.
Proof.
  intros Hm. destruct c as [d [p |]]; unfold Tx.statement, Tx.view; simpl.
  - specialize (Hm p). destruct (m p) as [r db']. simpl in *. now subst.
  - specialize (Hm d). destruct (m d) as [r db']. simpl in *. now subst.
Qed.

Lemma bind_read_only {A B} (mt : Tx.T A) (kt : A -> Tx.T B)
      (c : Tx.connection) :
  snd (mt c) = c -> (forall a c', snd (kt a c') = c') ->
  snd (Tx.bind mt kt c) = c.
Proof.
  intros Hm Hk. unfold Tx.bind.
  destruct (mt c) as [[a | e] c']; simpl in *; subst; [apply Hk | reflexivity].
Qed.

Lemma mapM_item0_read_only (l : list (list value)) (c : Tx.connection) :
  snd (Tx.mapM Tx.item0 l c) = c.
Proof.
  revert c. induction l as [| t l IH]; intros c; [reflexivity |].
  cbn [Tx.mapM]. apply bind_read_only.
  - now destruct t.
  - intros b c'. apply bind_read_only; [apply IH | reflexivity].
Qed.

Section Settled.

Variable E : engine.

Lemma authenticate_user_connection (username password : str)
      (c : Tx.connection) :
  snd (Tx.authenticate_user E username password c) = c.
Proof.
  apply bind_read_only.
  - unfold Tx.self_hash_password. now destruct (encodable password).
  - intros hashed_password c'. apply bind_read_only; [| reflexivity].
    apply statement_read_only. intros db. apply execute_read_only.
Qed.

Lemma get_user_permissions_connection (username : str) (c : Tx.connection) :
  snd (Tx.get_user_permissions E username c) = c.
Proof.
  apply bind_read_only.
  - apply statement_read_only. intros db. apply execute_read_only.
  - intros cur c'. now destruct (fetchone cur) as [[| v t] |].
Qed.

Lemma find_users_by_prefix_connection (prefix : str) (c : Tx.connection) :
  snd (Tx.find_users_by_prefix E prefix c) = c.
Proof.
  apply bind_read_only.
  - apply statement_read_only. intros db. apply execute_read_only.
  - intros cur c'. apply mapM_item0_read_only.
Qed.

Lemma create_user_settled (username password email : str) (is_admin : bool)
      (c : Tx.connection) :
  Tx.settled c ->
  Tx.settled (snd (Tx.create_user username password email is_admin c)).
Proof.
  unfold Tx.settled, Tx.create_user, Tx.self_hash_password.
  destruct (encodable password); [| intros Hs; exact Hs].
  unfold Tx.try_except, Tx.bind, Tx.ret,
    Tx.modifying_statement, Tx.bind, Tx.begin_transaction, Tx.statement,
    Tx.commit, Tx.view, execute_insert.
  destruct c as [d [p |]]; simpl; [intros -> | intros _];
    (destruct d as [t |]; [| reflexivity]); simpl;
    (destruct (negb _); [reflexivity |]);
    now destruct (has_username username t).
Qed.

Lemma setup_database_settled (c : Tx.connection) :
  Tx.settled (snd (Tx.setup_database c)).
Proof.
  unfold Tx.settled, Tx.setup_database, Tx.bind, Tx.statement, Tx.commit,
    Tx.view, execute_create_table.
  destruct c as [d [[t |] |]]; simpl; try reflexivity.
  now destruct d.
Qed.

Lemma run_call_settled (k : call) (c : Tx.connection) :
  Tx.settled c -> Tx.settled (snd (Tx.run_call E k c)).
Proof.
  intros Hs. destruct k; cbn [Tx.run_call]; unfold Tx.bind.
  - pose proof (create_user_settled username password email is_admin c Hs)
      as H.
    now destruct (Tx.create_user _ _ _ _ c) as [[b | e] c'].
  - pose proof (authenticate_user_connection username password c) as H.
    destruct (Tx.authenticate_user _ _ _ c) as [[b | e] c'];
      simpl in *; now subst.
  - pose proof (get_user_permissions_connection username c) as H.
    destruct (Tx.get_user_permissions _ _ c) as [[b | e] c'];
      simpl in *; now subst.
  - pose proof (find_users_by_prefix_connection prefix c) as H.
    destruct (Tx.find_users_by_prefix _ _ c) as [[b | e] c'];
      simpl in *; now subst.
Qed.

Lemma run_calls_settled (calls : list call) :
  forall c, Tx.settled c -> Tx.settled (snd (Tx.run_calls E calls c)).
Proof.
  induction calls as [| k calls IH]; intros c Hs; [exact Hs |].
  cbn [Tx.run_calls]. unfold Tx.bind.
  pose proof (run_call_settled k c Hs) as H.
  destruct (Tx.run_call E k c) as [[[] | e] c']; simpl in *;
    [now apply IH | exact H].
Qed.

End Settled.

(** X16: nothing is lost at close. Open the store on any location, run
    any calls of create_user, authenticate_user, get_user_permissions and
    find_users_by_prefix until the list ends or one raises, then close:
    every create_user has committed its record, so the location is left
    holding exactly the records the calls last saw, and the run ends as it
    does when the statements act on the records at once. *)
Theorem close_loses_nothing
        (E : engine) (location : database) (calls : list call) :
  exists (r : outcome unit) (c : Tx.connection),
    Tx.bind Tx.setup_database (fun _ => Tx.run_calls E calls)
            (Tx.connect location)
    = (r, c)
    /\ Tx.close c = Tx.view c
    /\ (__init__ ;; run_calls E calls) location = (r, Tx.close c).
Proof.
  set (mt := Tx.bind Tx.setup_database (fun _ => Tx.run_calls E calls)).
  assert (Hsim : Tx.simulates mt (__init__ ;; run_calls E calls)).
  { apply simulates_bind; [apply simulates_setup_database |].
    intros _. apply simulates_run_calls. }
  assert (Hset : Tx.settled (snd (mt (Tx.connect location)))).
  { unfold mt, Tx.bind.
    pose proof (setup_database_settled (Tx.connect location)) as H0.
    destruct (Tx.setup_database (Tx.connect location)) as [[[] | e] c0];
      simpl in *; [now apply run_calls_settled | exact H0]. }
  destruct (Hsim (Tx.connect location)) as [H1 H2].
  destruct (mt (Tx.connect location)) as [r c]. simpl in *.
  exists r, c. split; [reflexivity |].
  unfold Tx.close. split; [now symmetry |].
  change (Tx.view (Tx.connect location)) with location in *.
  destruct ((__init__ ;; run_calls E calls) location) as [r' db'].
  simpl in *. subst. f_equal. now symmetry.
Qed.

Lemma create_user_committed (username password email : str)
      (is_admin : bool) (c c1 : Tx.connection) :
  Tx.create_user username password email is_admin c = (Ok true, c1) ->
  Tx.pending c1 = None
  /\ create_user username password email is_admin (Tx.view c)
     = (Ok true, Tx.committed c1).
Proof.
  rewrite create_user_run.
  unfold Tx.create_user, Tx.self_hash_password.
  destruct (encodable password); [| discriminate].
  unfold Tx.try_except, Tx.bind, Tx.ret,
    Tx.modifying_statement, Tx.bind, Tx.begin_transaction, Tx.statement,
    Tx.commit, Tx.view, execute_insert.
  change (SHA256.hexdigest (utf8 password)) with (hash_password password).
  rewrite hash_password_encodable, andb_true_r.
  destruct c as [d [p |]]; simpl.
  - destruct p as [t |]; [| discriminate]. simpl.
    destruct (encodable username && encodable email); [| discriminate].
    simpl. destruct (has_username username t); [discriminate |].
    intros [= <-]. now split.
  - destruct d as [t |]; [| discriminate]. simpl.
    destruct (encodable username && encodable email); [| discriminate].
    simpl. destruct (has_username username t); [discriminate |].
    intros [= <-]. now split.
Qed.

(** X17: an account outlives the connection. When create_user has
    returned true the record is committed: after close, a store opened
    again on the location authenticates the username with the password and
    returns the flag of the creation, and sees the records the closed
    connection saw. *)
Theorem created_account_survives_close
        (E : engine) (username password email : str) (is_admin : bool)
        (c c1 : Tx.connection) :
  Tx.create_user username password email is_admin c = (Ok true, c1) ->
  exists c2 : Tx.connection,
    Tx.__init__ (Tx.close c1) = (Ok tt, c2)
    /\ Tx.view c2 = Tx.view c1
    /\ Tx.authenticate_user E username password c2 = (Ok true, c2)
    /\ Tx.get_user_permissions E username c2
       = (Ok (Int (Z.b2z is_admin)), c2).
Proof.
  intros H. apply create_user_committed in H as [Hp Hc].
  apply create_user_success in Hc as (t & Hv & Habs & Hu & Hpw & _ & Hd).
  set (r := mkRow (next_id t) username (hash_password password) email
                  (Z.b2z is_admin)) in *.
  destruct c1 as [d1 p1]. simpl in Hp, Hd. subst p1 d1.
  assert (H1 : filter (named username) (t ++ [r]) = [r])
    by now apply created_row_named.
  assert (Hr : u_username r = username) by now apply u_username_mkRow.
  exists (Tx.mkConnection (Some (t ++ [r])) None).
  split; [reflexivity |]. split; [reflexivity |].
  assert (Hv2 : Tx.view (Tx.mkConnection (Some (t ++ [r])) None)
                = Some (t ++ [r])) by reflexivity.
  generalize dependent (Tx.mkConnection (Some (t ++ [r])) None).
  intros c2 Hv2. split.
  - pose proof (authenticate_user_connection E username password c2) as Hsnd.
    destruct (simulates_authenticate_user E username password c2) as [Hf _].
    destruct (Tx.authenticate_user E username password c2) as [b c'].
    simpl in *. subst c'. f_equal. rewrite Hf, Hv2.
    refine (f_equal fst (authenticate_named_one E username password
                           (t ++ [r]) r H1 _ Hpw)).
    apply u_password_mkRow, hash_password_encodable.
  - pose proof (get_user_permissions_connection E username c2) as Hsnd.
    destruct (simulates_get_user_permissions E username c2) as [Hf _].
    destruct (Tx.get_user_permissions E username c2) as [b c'].
    simpl in *. subst c'. f_equal. rewrite Hf, Hv2.
    rewrite <- Hr in H1 |- *.
    exact (f_equal fst (get_user_permissions_flag E (t ++ [r]) r H1)).
Qed.

Lemma created_account_survives_close_witness :
  Tx.create_user (lit "admin") (lit "password123") (lit "admin@example.com")
                 true (Tx.connect (Some []))
  = (Ok true, Tx.mkConnection admin_db None)
  /\ exists c2 : Tx.connection,
       Tx.__init__ (Tx.close (Tx.mkConnection admin_db None)) = (Ok tt, c2)
       /\ Tx.view c2 = Tx.view (Tx.mkConnection admin_db None)
       /\ Tx.authenticate_user username_order (lit "admin")
                               (lit "password123") c2
          = (Ok true, c2)
       /\ Tx.get_user_permissions username_order (lit "admin") c2
          = (Ok (Int (Z.b2z true)), c2).
Proof.
  assert (H : Tx.create_user (lit "admin") (lit "password123")
                             (lit "admin@example.com") true
                             (Tx.connect (Some []))
              = (Ok true, Tx.mkConnection admin_db None))
    by (vm_compute; reflexivity).
  split; [exact H |].
  exact (created_account_survives_close username_order _ _ _ _ _ _ H).
Defined.

